(** * notiflow: the notification manager and the notification card

    A shallow embedding of
    [src/components/NotificationManager/NotificationManager.tsx]:
    the bucketing and stacking-index bookkeeping of [NotificationManager],
    the colour lookup [computeColors], and the pointer handlers of the
    [Notification] card (drag to dismiss, click suppression).

    Conventions of the embedding.
    - React refs ([useRef]) and the effects of callbacks are explicit
      state: a handler is a function from the card's state to its next
      state, and calls into the store or the browser are appended to a
      trace kept in that state.
    - Pixel coordinates are integers ([Z]); [Math.hypot dx dy > t] is
      compared through squares, [dx*dx + dy*dy > t*t], which is the same
      comparison for a non-negative [t].
    - The side table [previousIndexes] is a finite map from ids to
      indices; ids are the store's generated strings. *)

From Stdlib Require Import ZArith.
From stdpp Require Import gmap strings list fin_maps.

Open Scope string_scope.
Open Scope list_scope.

(** ** Data model *)

(** The string unions of [types]: each constructor stands for the string
    literal after its one-letter prefix ([Tnone] is the type ["none"],
    [Cnone] the colored mode ["none"]). *)
Inductive NotificationType := Tsuccess | Terror | Tinfo | Talert | Tnone.

Inductive ColoredMode := Cfull | Cborder | Cnone.

Inductive ThemeMode := light | dark.

Inductive Vertical := Vtop | Vbottom.

Inductive Horizontal := Hleft | Hmiddle | Hright.

Record NotificationThemeType := {
  backgroundColor : string;
  borderColor : string;
  fontColor : string
}.

(** The fields of [NotificationProps] that the manager and the card
    read.  [align] is the optional anchor tuple; each component is itself
    optional because the manager destructures it with a default per
    component.  [isExiting] is tested for truthiness only, so an absent
    flag is [false]. *)
Record NotificationProps := {
  id : string;
  message : string;
  type : NotificationType;
  theme : option NotificationThemeType;
  colored : option ColoredMode;
  align : option (option Vertical * option Horizontal);
  isExiting : bool
}.

#[global] Instance NotificationType_eq_dec : EqDecision NotificationType.
Proof. solve_decision. Defined.
#[global] Instance ColoredMode_eq_dec : EqDecision ColoredMode.
Proof. solve_decision. Defined.
#[global] Instance Vertical_eq_dec : EqDecision Vertical.
Proof. solve_decision. Defined.
#[global] Instance Horizontal_eq_dec : EqDecision Horizontal.
Proof. solve_decision. Defined.

(** ** The manager *)

Module Manager.

Definition vertical_name (v : Vertical) : string :=
  match v with Vtop => "top" | Vbottom => "bottom" end.

Definition horizontal_name (h : Horizontal) : string :=
  match h with
  | Hleft => "left" | Hmiddle => "middle" | Hright => "right"
  end.

(** [ORDER]: the six anchor keys, in render order. *)
Definition ORDER : list string :=
  [ "top-left"; "top-middle"; "top-right";
    "bottom-left"; "bottom-middle"; "bottom-right" ].

(** [const [v = "top", h = "middle"] = n.align ?? ["top", "middle"];
    const key = `${v}-${h}`]. *)
Definition align_key (n : NotificationProps) : string :=
  let '(v, h) :=
    match align n with
    | Some (ov, oh) => (default Vtop ov, default Hmiddle oh)
    | None => (Vtop, Hmiddle)
    end in
  vertical_name v +:+ "-" +:+ horizontal_name h.

(** One turn of the grouping loop: [(acc[key] ||= []).push(n)]. *)
Definition push_group (acc : gmap string (list NotificationProps))
    (n : NotificationProps) : gmap string (list NotificationProps) :=
  let key := align_key n in
  <[key := default [] (acc !! key) ++ [n]]> acc.

(** [groups]: the [useMemo] body, a loop over the live list. *)
Definition groups (notifications : list NotificationProps)
    : gmap string (list NotificationProps) :=
  fold_left push_group notifications ∅.

(** A rendered [<Notification key=... {...n} colored=... index=...
    onClose=... />] element.  [el_onClose] is the id the close
    callback passes to [exitNotification]. *)
Record Element := {
  el_key : string;
  el_props : NotificationProps;
  el_colored : ColoredMode;
  el_index : nat;
  el_onClose : string
}.

(** The index an entry receives, given the side table and the bucket's
    counter:
    [n.isExiting ? previousIndexes.current[n.id] ?? activeIndex
                 : activeIndex]. *)
Definition current_index (previousIndexes : gmap string nat)
    (activeIndex : nat) (n : NotificationProps) : nat :=
  if isExiting n then default activeIndex (previousIndexes !! id n)
  else activeIndex.

(** The counter after an entry: [if (!n.isExiting) activeIndex += 1]. *)
Definition next_active (activeIndex : nat) (n : NotificationProps) : nat :=
  if isExiting n then activeIndex else S activeIndex.

(** The callback of [bucket.slice(0, 7).map], run over the entries in
    order.  It threads the side table (written at every entry) and the
    bucket's counter. *)
Fixpoint render_cards (previousIndexes : gmap string nat)
    (activeIndex : nat) (entries : list NotificationProps)
    : list Element * gmap string nat :=
  match entries with
  | [] => ([], previousIndexes)
  | n :: rest =>
      let currentIndex := current_index previousIndexes activeIndex n in
      let el := {| el_key := id n;
                   el_props := n;
                   el_colored := default Cfull (colored n);
                   el_index := currentIndex;
                   el_onClose := id n |} in
      let '(els, previousIndexes') :=
        render_cards (<[id n := currentIndex]> previousIndexes)
                     (next_active activeIndex n) rest in
      (el :: els, previousIndexes')
  end.

(** The callback of [ORDER.map]: [null] for a bucket that does not
    exist, otherwise the cards of its first seven entries, with the
    counter starting at 0. *)
Definition render_bucket (grps : gmap string (list NotificationProps))
    (previousIndexes : gmap string nat) (alignKey : string)
    : option (list Element) * gmap string nat :=
  match grps !! alignKey with
  | None => (None, previousIndexes)
  | Some bucket =>
      let '(els, previousIndexes') :=
        render_cards previousIndexes 0 (take 7 bucket) in
      (Some els, previousIndexes')
  end.

(** [ORDER.map] over a list of keys, threading the side table from one
    bucket to the next. *)
Fixpoint render_keys (grps : gmap string (list NotificationProps))
    (previousIndexes : gmap string nat) (keys : list string)
    : list (option (list Element)) * gmap string nat :=
  match keys with
  | [] => ([], previousIndexes)
  | k :: ks =>
      let '(r, p1) := render_bucket grps previousIndexes k in
      let '(rs, p2) := render_keys grps p1 ks in
      (r :: rs, p2)
  end.

(** The render pass of [NotificationManager]: the fragment's children
    (one slot per key of [ORDER]) and the side table it leaves. *)
Definition NotificationManager (previousIndexes : gmap string nat)
    (notifications : list NotificationProps)
    : list (option (list Element)) * gmap string nat :=
  render_keys (groups notifications) previousIndexes ORDER.

(** The [useEffect] that follows a render whose [notifications]
    changed: every key of the side table that is not the id of a live
    notification is deleted.  [Object.keys] is taken once, before the
    loop. *)
Definition prune_step (aliveIds : gset string) (k : string)
    (m : gmap string nat) : gmap string nat :=
  if decide (k ∈ aliveIds) then m else delete k m.

Definition cleanup (notifications : list NotificationProps)
    (previousIndexes : gmap string nat) : gmap string nat :=
  let aliveIds : gset string := list_to_set (id <$> notifications) in
  fold_left (λ m k, prune_step aliveIds k m)
            (fst <$> map_to_list previousIndexes) previousIndexes.

(** The entries of one anchor bucket, in list order. *)
Definition bucket_of (key : string) (notifications : list NotificationProps)
    : list NotificationProps :=
  filter (λ n, align_key n = key) notifications.

(** All elements of a render, in render order. *)
Definition rendered (out : list (option (list Element))) : list Element :=
  mjoin (default [] <$> out).

(** The number of non-exiting entries of a list. *)
Definition count_active (l : list NotificationProps) : nat :=
  length (filter (λ n, isExiting n = false) l).

(** The entries a render retains: the first seven of the bucket of each
    key, bucket after bucket. *)
Definition retained (grps : gmap string (list NotificationProps))
    (keys : list string) : list NotificationProps :=
  mjoin ((λ k, take 7 (default [] (grps !! k))) <$> keys).

(** A notification with the given id, anchor and exiting flag, for
    concrete runs. *)
Definition sample (i : string)
    (a : option (option Vertical * option Horizontal)) (exiting : bool)
    : NotificationProps :=
  {| id := i; message := "toast"; type := Tinfo; theme := None;
     colored := None; align := a; isExiting := exiting |}.

(** Eight live notifications without an anchor. *)
Definition eight : list NotificationProps :=
  (λ i, sample i None false) <$>
    ["n1"; "n2"; "n3"; "n4"; "n5"; "n6"; "n7"; "n8"].

(** One commit of the manager for a changed live list: the render pass,
    then the effect on the table the render left.  The result is what
    is on screen and the side table the next render starts from. *)
Definition render_commit (previousIndexes : gmap string nat)
    (notifications : list NotificationProps)
    : list (option (list Element)) * gmap string nat :=
  let '(out, table) := NotificationManager previousIndexes notifications in
  (out, cleanup notifications table).

(** The elements of a list of cards whose notification is not exiting. *)
Definition live_cards (els : list Element) : list Element :=
  filter (λ e, isExiting (el_props e) = false) els.

End Manager.

(** ** The card *)

Module Card.

Record Colors := { bg : string; border : string; color : string }.

(** [computeColors].  A palette is a record indexed by notification
    type, here a function; the [default] branch of the switch is the
    ["full"] one. *)
Definition computeColors (colored : ColoredMode) (type : NotificationType)
    (userTheme : option NotificationThemeType)
    (lightTheme darkTheme : NotificationType → NotificationThemeType)
    (mode : ThemeMode) : Colors :=
  let palette := match mode with light => lightTheme | dark => darkTheme end in
  let base := default (palette type) userTheme in
  let none := palette Tnone in
  match colored with
  | Cborder => {| bg := backgroundColor none;
                  border := borderColor base;
                  color := fontColor base |}
  | Cnone => {| bg := backgroundColor none;
                border := borderColor none;
                color := fontColor none |}
  | Cfull => {| bg := backgroundColor base;
                border := borderColor base;
                color := fontColor base |}
  end.

Record Point := { x : Z; y : Z }.

Record PointerEvent := { clientX : Z; clientY : Z; pointerId : Z }.

(** What a handler does outside the card's own refs and state. *)
Inductive Effect :=
| ExitNotification (id : string)
| SetPointerCapture (pointerId : Z)
| ReleasePointerCapture (pointerId : Z)
| StopPropagation
| OnClick.

(** The hooks of one card: the [dragOffset] state, the four refs, and
    the trace of effects so far, oldest first. *)
Record CardState := {
  dragOffset : Point;
  dragOffsetRef : Point;
  dragStartRef : option Point;
  clickSuppressedRef : bool;
  isDraggingOutRef : bool;
  trace : list Effect
}.

#[global] Instance Point_eq_dec : EqDecision Point.
Proof. solve_decision. Defined.
#[global] Instance Effect_eq_dec : EqDecision Effect.
Proof. solve_decision. Defined.

Definition DRAG_CLOSE_DISTANCE : Z := 100.
Definition DRAG_RELEASE_PUSH : Z := 120.

(** [Math.hypot(dx, dy) > t], for [0 <= t]. *)
Definition hypot_gt (dx dy t : Z) : bool := (t * t <? dx * dx + dy * dy)%Z.

(** The state of a freshly mounted card. *)
Definition initial : CardState :=
  {| dragOffset := {| x := 0; y := 0 |};
     dragOffsetRef := {| x := 0; y := 0 |};
     dragStartRef := None;
     clickSuppressedRef := false;
     isDraggingOutRef := false;
     trace := [] |}.

Definition emit (e : Effect) (s : CardState) : CardState :=
  {| dragOffset := dragOffset s;
     dragOffsetRef := dragOffsetRef s;
     dragStartRef := dragStartRef s;
     clickSuppressedRef := clickSuppressedRef s;
     isDraggingOutRef := isDraggingOutRef s;
     trace := trace s ++ [e] |}.

Definition set_dragStart (v : option Point) (s : CardState) : CardState :=
  {| dragOffset := dragOffset s;
     dragOffsetRef := dragOffsetRef s;
     dragStartRef := v;
     clickSuppressedRef := clickSuppressedRef s;
     isDraggingOutRef := isDraggingOutRef s;
     trace := trace s |}.

Definition set_clickSuppressed (v : bool) (s : CardState) : CardState :=
  {| dragOffset := dragOffset s;
     dragOffsetRef := dragOffsetRef s;
     dragStartRef := dragStartRef s;
     clickSuppressedRef := v;
     isDraggingOutRef := isDraggingOutRef s;
     trace := trace s |}.

Definition set_isDraggingOut (v : bool) (s : CardState) : CardState :=
  {| dragOffset := dragOffset s;
     dragOffsetRef := dragOffsetRef s;
     dragStartRef := dragStartRef s;
     clickSuppressedRef := clickSuppressedRef s;
     isDraggingOutRef := v;
     trace := trace s |}.

(** [updateDragOffset]: the ref and the state are written together. *)
Definition updateDragOffset (value : Point) (s : CardState) : CardState :=
  {| dragOffset := value;
     dragOffsetRef := value;
     dragStartRef := dragStartRef s;
     clickSuppressedRef := clickSuppressedRef s;
     isDraggingOutRef := isDraggingOutRef s;
     trace := trace s |}.

(** The handlers of the card whose props carry [id], and an [onClick]
    when [hasOnClick] holds. *)
Section Handlers.

Variable id : string.
Variable hasOnClick : bool.

(** One axis of the release push:
    [c + (Math.abs(c) > 6 ? Math.sign(c) * DRAG_RELEASE_PUSH : 0)]. *)
Definition pushed (c : Z) : Z :=
  (c + if 6 <? Z.abs c then Z.sgn c * DRAG_RELEASE_PUSH else 0)%Z.

Definition finalizeDrag (shouldClose : bool) (s : CardState) : CardState :=
  let p := dragOffsetRef s in
  if shouldClose then
    emit (ExitNotification id)
      (updateDragOffset {| x := pushed (x p); y := pushed (y p) |} s)
  else
    updateDragOffset {| x := 0; y := 0 |} s.

Definition handlePointerDown (event : PointerEvent) (s : CardState)
    : CardState :=
  emit (SetPointerCapture (pointerId event))
    (set_clickSuppressed false
      (set_dragStart
         (Some {| x := clientX event; y := clientY event |}) s)).

(** The third conjunct of the auto-close guard, [dragStartRef.current],
    holds on the path that reaches it, so the guard is the first two. *)
Definition handlePointerMove (event : PointerEvent) (s : CardState)
    : CardState :=
  match dragStartRef s with
  | None => s
  | Some start =>
      let dx := (clientX event - x start)%Z in
      let dy := (clientY event - y start)%Z in
      let s1 := updateDragOffset {| x := dx; y := dy |} s in
      let s2 := if hypot_gt dx dy 4
                then set_clickSuppressed true s1 else s1 in
      if hypot_gt dx dy DRAG_CLOSE_DISTANCE
         && negb (isDraggingOutRef s2)
      then
        set_dragStart None
          (emit (ReleasePointerCapture (pointerId event))
             (finalizeDrag true (set_isDraggingOut true s2)))
      else s2
  end.

Definition handlePointerUp (event : PointerEvent) (s : CardState)
    : CardState :=
  match dragStartRef s with
  | None => s
  | Some _ =>
      let p := dragOffsetRef s in
      let shouldClose := hypot_gt (x p) (y p) DRAG_CLOSE_DISTANCE in
      set_isDraggingOut false
        (set_dragStart None
           (finalizeDrag shouldClose
              (emit (ReleasePointerCapture (pointerId event)) s)))
  end.

Definition handlePointerCancel (event : PointerEvent) (s : CardState)
    : CardState :=
  match dragStartRef s with
  | None => s
  | Some _ =>
      set_isDraggingOut false
        (set_dragStart None
           (finalizeDrag false
              (emit (ReleasePointerCapture (pointerId event)) s)))
  end.

(** The wrapper's [onClick] prop: [undefined] without an [onClick] of
    the notification, so a click then touches nothing. *)
Definition handleClick (s : CardState) : CardState :=
  if hasOnClick then
    if clickSuppressedRef s then set_clickSuppressed false s
    else emit OnClick (emit StopPropagation s)
  else s.

Inductive Event :=
| PointerDown (e : PointerEvent)
| PointerMove (e : PointerEvent)
| PointerUp (e : PointerEvent)
| PointerCancel (e : PointerEvent)
| Click.

Definition step (s : CardState) (ev : Event) : CardState :=
  match ev with
  | PointerDown e => handlePointerDown e s
  | PointerMove e => handlePointerMove e s
  | PointerUp e => handlePointerUp e s
  | PointerCancel e => handlePointerCancel e s
  | Click => handleClick s
  end.

Definition run (s : CardState) (evs : list Event) : CardState :=
  fold_left step evs s.

(** The ids passed to [exitNotification] so far. *)
Definition exits (s : CardState) : list string :=
  omap (λ e, match e with ExitNotification i => Some i | _ => None end)
       (trace s).

(** How often the notification's [onClick] has run. *)
Definition clicks (s : CardState) : nat :=
  length (filter (λ e, e = OnClick) (trace s)).

(** An event that resets the drag-out latch in state [s]: a
    pointer-up or pointer-cancel that finds a drag start recorded. *)
Definition releases (s : CardState) (ev : Event) : bool :=
  match ev with
  | PointerUp _ | PointerCancel _ =>
      match dragStartRef s with Some _ => true | None => false end
  | _ => false
  end.

(** No event of [evs], run from [s], resets the latch. *)
Fixpoint no_release (s : CardState) (evs : list Event) : bool :=
  match evs with
  | [] => true
  | ev :: evs' => negb (releases s ev) && no_release (step s ev) evs'
  end.

End Handlers.

(** A pointer event of pointer 1 at the given client coordinates. *)
Definition at_ (cx cy : Z) : PointerEvent :=
  {| clientX := cx; clientY := cy; pointerId := 1 |}.

(** The events of a gesture between its pointer-down and its release:
    moves, and clicks delivered meanwhile. *)
Definition tracking (ev : Event) : bool :=
  match ev with
  | PointerMove _ | Click => true
  | _ => false
  end.

(** [Math.hypot(dx, dy) > t] for the displacement of the pointer at [e]
    from where the pointer-down [down] recorded the drag start. *)
Definition beyond (t : Z) (down e : PointerEvent) : bool :=
  hypot_gt (clientX e - clientX down) (clientY e - clientY down) t.

(** The square of an offset's displacement, [Math.hypot(x, y) ** 2]. *)
Definition displacement2 (p : Point) : Z := (x p * x p + y p * y p)%Z.

End Card.

(** ** What the card shows *)

Module View.

(** [type === "alert" || type === "error"]. *)
Definition isAssertive (type : NotificationType) : bool :=
  match type with
  | Talert | Terror => true
  | _ => false
  end.

Definition role (type : NotificationType) : string :=
  if isAssertive type then "alert" else "status".

Definition ariaLive (type : NotificationType) : string :=
  if isAssertive type then "assertive" else "polite".

(** The icon child of the wrapper: a custom icon of type [C] (a React
    node), or a built-in icon component of type [Icon]. *)
Inductive IconSlot (C Icon : Type) :=
| CustomIconSlot (c : C)
| BuiltinIconSlot (i : Icon).
Arguments CustomIconSlot {C Icon} c.
Arguments BuiltinIconSlot {C Icon} i.

(** The four icon components are imported from [icons/*.tsx]; the card
    only passes them on, so they are parameters here, of a type [Icon]
    of components about which nothing is assumed. *)
Section Icons.

Variable Icon : Type.
Variable SuccessIcon : Icon.
Variable ErrorIcon : Icon.
Variable InfoIcon : Icon.
Variable AlertIcon : Icon.

(** [iconMap]: the built-in icon of a type, [null] for ["none"]. *)
Definition iconMap (type : NotificationType) : option Icon :=
  match type with
  | Tsuccess => Some SuccessIcon
  | Terror => Some ErrorIcon
  | Tinfo => Some InfoIcon
  | Talert => Some AlertIcon
  | Tnone => None
  end.

(** The icon the card renders: the custom icon when there is one,
    otherwise the built-in icon when [hasIcon] holds and the type has
    one.  An absent or falsy custom icon is [None]. *)
Definition icon_slot {C : Type} (customIcon : option C) (hasIcon : bool)
    (type : NotificationType) : option (IconSlot C Icon) :=
  match customIcon with
  | Some c => Some (CustomIconSlot c)
  | None => if hasIcon then BuiltinIconSlot <$> iconMap type else None
  end.

End Icons.

(** The anchor the card hands to its wrapper:
    [veticalAlign = "top"; horizontalAlign = "middle";
     if (align) { veticalAlign = align[0]; horizontalAlign = align[1]; }].
    The components of a given tuple are taken as they are. *)
Definition card_anchor (n : NotificationProps)
    : option Vertical * option Horizontal :=
  match align n with
  | Some (v, h) => (v, h)
  | None => (Some Vtop, Some Hmiddle)
  end.

(** The close button's [onClick]: [e.stopPropagation(); onClose(id)],
    where the manager passed [onClose = () => exitNotification(n.id)].
    [bound] is the id the manager bound. *)
Definition handleCloseClick (bound : string) (s : Card.CardState)
    : Card.CardState :=
  Card.emit (Card.ExitNotification bound) (Card.emit Card.StopPropagation s).

End View.

(** * Properties of the manager *)

Import Manager.

(** ** Grouping *)

Lemma bucket_of_cons key n l :
  bucket_of key (n :: l) =
    if decide (align_key n = key) then n :: bucket_of key l
    else bucket_of key l.
Proof. unfold bucket_of. rewrite filter_cons. by case_decide. Qed.

Lemma fold_push_group_lookup l : ∀ acc key,
  fold_left push_group l acc !! key =
    match bucket_of key l with
    | [] => acc !! key
    | b => Some (default [] (acc !! key) ++ b)
    end.
Proof.
  induction l as [|n l IH]; intros acc key; [done|].
  cbn [fold_left]. rewrite IH, bucket_of_cons. unfold push_group.
  case_decide as Hk.
  - subst key. rewrite lookup_insert_eq.
    destruct (bucket_of (align_key n) l); cbn; by rewrite <- ?app_assoc.
  - by rewrite lookup_insert_ne.
Qed.

(** The bucket stored under a key is the sub-list of the live list with
    that key; a key without entries has no bucket. *)
Lemma groups_lookup notifications key :
  groups notifications !! key =
    match bucket_of key notifications with
    | [] => None
    | b => Some b
    end.
Proof.
  unfold groups. rewrite fold_push_group_lookup, lookup_empty.
  by destruct (bucket_of key notifications).
Qed.

Lemma groups_lookup_default notifications key :
  default [] (groups notifications !! key) = bucket_of key notifications.
Proof.
  rewrite groups_lookup. by destruct (bucket_of key notifications).
Qed.

Lemma align_key_in_ORDER n : align_key n ∈ ORDER.
Proof.
  unfold align_key, ORDER.
  destruct (align n) as [[[[]|] [[]|]]|]; cbn; set_solver.
Qed.

Lemma NoDup_ORDER : NoDup ORDER.
Proof. unfold ORDER. apply (bool_decide_unpack _). by vm_compute. Qed.

(** ** Rendering one bucket *)

Lemma render_cards_props l : ∀ prev a,
  el_props <$> (render_cards prev a l).1 = l.
Proof.
  induction l as [|n l IH]; intros prev a; [done|].
  cbn [render_cards].
  specialize (IH (<[id n := current_index prev a n]> prev) (next_active a n)).
  destruct (render_cards _ _ l) as [els p']. cbn in *. by rewrite IH.
Qed.

Lemma render_cards_keys l : ∀ prev a,
  el_key <$> (render_cards prev a l).1 = id <$> l.
Proof.
  induction l as [|n l IH]; intros prev a; [done|].
  cbn [render_cards].
  specialize (IH (<[id n := current_index prev a n]> prev) (next_active a n)).
  destruct (render_cards _ _ l) as [els p']. cbn in *. by rewrite IH.
Qed.

Lemma render_cards_table_other l : ∀ prev a i,
  i ∉ id <$> l → (render_cards prev a l).2 !! i = prev !! i.
Proof.
  induction l as [|n l IH]; intros prev a i Hi; [done|].
  rewrite fmap_cons, not_elem_of_cons in Hi. destruct Hi as [Hne Hi].
  cbn [render_cards].
  specialize (IH (<[id n := current_index prev a n]> prev) (next_active a n) i).
  destruct (render_cards _ _ l) as [els p']. cbn [fst snd] in *.
  rewrite IH by done. by rewrite lookup_insert_ne.
Qed.

Lemma count_active_cons n l :
  count_active (n :: l) = next_active 0 n + count_active l.
Proof.
  unfold count_active, next_active. rewrite filter_cons.
  destruct (isExiting n); by case_decide.
Qed.

Lemma next_active_plus a n : next_active a n = a + next_active 0 n.
Proof. unfold next_active. destruct (isExiting n); lia. Qed.

(** With distinct ids, the entry at position [j] of a bucket gets the
    index computed from the table as it was before the bucket, and from
    the number of non-exiting entries before it; the table keeps that
    index. *)
Lemma render_cards_entry l : ∀ prev a j n,
  NoDup (id <$> l) → l !! j = Some n →
  ∃ e, (render_cards prev a l).1 !! j = Some e ∧ el_props e = n ∧
       el_index e = current_index prev (a + count_active (take j l)) n ∧
       (render_cards prev a l).2 !! id n = Some (el_index e).
Proof.
  induction l as [|n0 l IH]; intros prev a j n Hnd Hj; [done|].
  rewrite fmap_cons, NoDup_cons in Hnd. destruct Hnd as [Hfresh Hnd].
  cbn [render_cards].
  pose proof (render_cards_table_other l
    (<[id n0 := current_index prev a n0]> prev) (next_active a n0) (id n0) Hfresh)
    as Hother.
  specialize (IH (<[id n0 := current_index prev a n0]> prev) (next_active a n0)).
  destruct (render_cards _ _ l) as [els p']. cbn [fst snd] in *.
  destruct j as [|j]; cbn in Hj.
  - injection Hj as ->. eexists. split; [done|]. cbn.
    rewrite Nat.add_0_r. split; [done|]. split; [done|].
    by rewrite Hother, lookup_insert_eq.
  - destruct (IH j n Hnd Hj) as (e & He & Hp & Hi & Ht).
    exists e. split; [done|]. split; [done|]. split; [|done].
    rewrite Hi. cbn [take]. rewrite count_active_cons.
    assert (id n ≠ id n0) as Hne.
    { intros Heq. apply Hfresh. rewrite <- Heq.
      apply list_elem_of_fmap. exists n. split; [done|].
      by eapply list_elem_of_lookup_2. }
    unfold current_index. rewrite lookup_insert_ne by done.
    rewrite (next_active_plus a n0). by rewrite Nat.add_assoc.
Qed.

(** ** Rendering the buckets in order *)

Lemma join_cons {A} (l : list A) (ls : list (list A)) :
  mjoin (l :: ls) = l ++ mjoin ls.
Proof. reflexivity. Qed.

Lemma render_bucket_unfold grps prev key :
  render_bucket grps prev key =
    match grps !! key with
    | None => (None, prev)
    | Some b => (Some (render_cards prev 0 (take 7 b)).1,
                 (render_cards prev 0 (take 7 b)).2)
    end.
Proof.
  unfold render_bucket. destruct (grps !! key) as [b|]; [|done].
  by destruct (render_cards prev 0 (take 7 b)).
Qed.

Lemma render_keys_cons grps prev k ks :
  render_keys grps prev (k :: ks) =
    ((render_bucket grps prev k).1 ::
       (render_keys grps (render_bucket grps prev k).2 ks).1,
     (render_keys grps (render_bucket grps prev k).2 ks).2).
Proof.
  cbn [render_keys]. destruct (render_bucket grps prev k) as [r p1].
  cbn [fst snd]. by destruct (render_keys grps p1 ks).
Qed.

Lemma render_bucket_props grps prev key :
  fmap el_props <$> (render_bucket grps prev key).1 = take 7 <$> grps !! key.
Proof.
  rewrite render_bucket_unfold. destruct (grps !! key) as [b|]; [|done].
  cbn. by rewrite render_cards_props.
Qed.

Lemma render_bucket_default_props grps prev key :
  el_props <$> default [] (render_bucket grps prev key).1 =
    take 7 (default [] (grps !! key)).
Proof.
  rewrite render_bucket_unfold. destruct (grps !! key) as [b|]; [|done].
  cbn. by rewrite render_cards_props.
Qed.

Lemma render_bucket_default_keys grps prev key :
  el_key <$> default [] (render_bucket grps prev key).1 =
    id <$> take 7 (default [] (grps !! key)).
Proof.
  rewrite render_bucket_unfold. destruct (grps !! key) as [b|]; [|done].
  cbn. by rewrite render_cards_keys.
Qed.

Lemma render_bucket_table_other grps prev key i :
  i ∉ id <$> take 7 (default [] (grps !! key)) →
  (render_bucket grps prev key).2 !! i = prev !! i.
Proof.
  rewrite render_bucket_unfold. destruct (grps !! key) as [b|]; [|done].
  cbn. apply render_cards_table_other.
Qed.

(** The slots follow the keys: slot [k] holds the first seven entries of
    the bucket of the [k]-th key, or nothing when that bucket does not
    exist. *)
Lemma render_keys_props grps keys : ∀ prev,
  fmap (fmap el_props) <$> (render_keys grps prev keys).1 =
    (λ k, take 7 <$> grps !! k) <$> keys.
Proof.
  induction keys as [|k ks IH]; intros prev; [done|].
  rewrite render_keys_cons. cbn [fst]. rewrite !fmap_cons.
  by rewrite render_bucket_props, IH.
Qed.

Lemma render_keys_rendered_props grps keys : ∀ prev,
  el_props <$> rendered (render_keys grps prev keys).1 = retained grps keys.
Proof.
  unfold rendered, retained.
  induction keys as [|k ks IH]; intros prev; [done|].
  rewrite render_keys_cons. cbn [fst]. rewrite !fmap_cons, !join_cons.
  by rewrite fmap_app, render_bucket_default_props, IH.
Qed.

Lemma render_keys_rendered_keys grps keys : ∀ prev,
  el_key <$> rendered (render_keys grps prev keys).1 =
    id <$> retained grps keys.
Proof.
  unfold rendered, retained.
  induction keys as [|k ks IH]; intros prev; [done|].
  rewrite render_keys_cons. cbn [fst]. rewrite !fmap_cons, !join_cons.
  by rewrite !fmap_app, render_bucket_default_keys, IH.
Qed.

Lemma render_keys_table_other grps keys : ∀ prev i,
  i ∉ id <$> retained grps keys →
  (render_keys grps prev keys).2 !! i = prev !! i.
Proof.
  unfold retained.
  induction keys as [|k ks IH]; intros prev i Hi; [done|].
  rewrite fmap_cons, join_cons, fmap_app, not_elem_of_app in Hi. destruct Hi as [Hk Hks].
  rewrite render_keys_cons. cbn [snd].
  rewrite IH by done. by apply render_bucket_table_other.
Qed.

Lemma render_bucket_entry grps prev key j n :
  NoDup (id <$> take 7 (default [] (grps !! key))) →
  take 7 (default [] (grps !! key)) !! j = Some n →
  ∃ e, default [] (render_bucket grps prev key).1 !! j = Some e ∧
       el_props e = n ∧
       el_index e =
         current_index prev
           (count_active (take j (default [] (grps !! key)))) n ∧
       (render_bucket grps prev key).2 !! id n = Some (el_index e).
Proof.
  intros Hnd Hj. rewrite render_bucket_unfold.
  destruct (grps !! key) as [b|]; [|done]. cbn [default fst snd] in *.
  destruct (render_cards_entry (take 7 b) prev 0 j n Hnd Hj)
    as (e & He & Hp & Hi & Ht).
  exists e. repeat split; try done.
  rewrite Hi. cbn. rewrite take_take.
  apply lookup_lt_Some in Hj. rewrite length_take in Hj.
  by replace (j `min` 7) with j by lia.
Qed.

(** The entry at position [j] of the bucket of the [k]-th key, when the
    retained entries have distinct ids. *)
Lemma render_keys_entry grps keys : ∀ prev k key j n,
  NoDup (id <$> retained grps keys) →
  keys !! k = Some key →
  take 7 (default [] (grps !! key)) !! j = Some n →
  ∃ slot e, (render_keys grps prev keys).1 !! k = Some slot ∧
       default [] slot !! j = Some e ∧
       el_props e = n ∧
       el_index e =
         current_index prev
           (count_active (take j (default [] (grps !! key)))) n ∧
       (render_keys grps prev keys).2 !! id n = Some (el_index e).
Proof.
  unfold retained.
  induction keys as [|k0 ks IH]; intros prev k key j n Hnd Hk Hj; [done|].
  rewrite fmap_cons, join_cons, fmap_app in Hnd. apply NoDup_app in Hnd as (Hnd0 & Hdisj & Hnds).
  rewrite render_keys_cons. cbn [fst snd].
  destruct k as [|k]; cbn in Hk.
  - injection Hk as ->.
    destruct (render_bucket_entry grps prev key j n Hnd0 Hj)
      as (e & He & Hp & Hi & Ht).
    exists (render_bucket grps prev key).1, e. repeat split; try done.
    rewrite render_keys_table_other; [done|].
    apply Hdisj, list_elem_of_fmap. exists n. split; [done|].
    by eapply list_elem_of_lookup_2.
  - destruct (IH (render_bucket grps prev k0).2 k key j n Hnds Hk Hj)
      as (slot & e & Hs & He & Hp & Hi & Ht).
    exists slot, e. repeat split; try done.
    rewrite Hi. unfold current_index.
    rewrite render_bucket_table_other; [done|].
    intros Hin. apply (Hdisj _ Hin).
    apply list_elem_of_fmap. exists n. split; [done|].
    apply list_elem_of_join. eexists. split; [by eapply list_elem_of_lookup_2|].
    apply list_elem_of_fmap. exists key. split; [done|].
    by eapply list_elem_of_lookup_2.
Qed.

(** ** Distinct ids *)

Lemma NoDup_fmap_eq {A B} (f : A → B) (l : list A) a b :
  NoDup (f <$> l) → a ∈ l → b ∈ l → f a = f b → a = b.
Proof.
  intros Hnd [i Hi]%list_elem_of_lookup [j Hj]%list_elem_of_lookup Hf.
  assert (i = j) as ->; [|congruence].
  apply (NoDup_lookup (f <$> l) i j (f a)); [done| |].
  - by rewrite list_lookup_fmap, Hi.
  - by rewrite list_lookup_fmap, Hj, Hf.
Qed.

Lemma elem_of_take_bucket n key j l :
  n ∈ take j (bucket_of key l) → n ∈ l ∧ align_key n = key.
Proof.
  intros Hn. apply elem_of_sublist with (l2 := bucket_of key l) in Hn;
    [|apply sublist_take].
  unfold bucket_of in Hn. apply list_elem_of_filter in Hn. tauto.
Qed.

Lemma retained_groups notifications keys :
  retained (groups notifications) keys =
    mjoin ((λ k, take 7 (bucket_of k notifications)) <$> keys).
Proof.
  unfold retained. f_equal. apply list_fmap_ext.
  intros i k _. by rewrite groups_lookup_default.
Qed.

Lemma elem_of_retained_groups n notifications keys :
  n ∈ retained (groups notifications) keys →
  n ∈ notifications ∧ align_key n ∈ keys ∧
  n ∈ take 7 (bucket_of (align_key n) notifications).
Proof.
  rewrite retained_groups.
  intros (b & Hn & Hb)%list_elem_of_join.
  apply list_elem_of_fmap in Hb as (k & -> & Hk).
  destruct (elem_of_take_bucket _ _ _ _ Hn) as [Hl <-]. done.
Qed.

(** Buckets do not share ids when the live list does not repeat one. *)
Lemma retained_NoDup notifications keys :
  NoDup keys → NoDup (id <$> notifications) →
  NoDup (id <$> retained (groups notifications) keys).
Proof.
  intros Hkeys Hids. induction Hkeys as [|k ks Hk Hks IH].
  { constructor. }
  assert (retained (groups notifications) (k :: ks) =
          take 7 (bucket_of k notifications) ++
          retained (groups notifications) ks) as ->.
  { unfold retained. by rewrite fmap_cons, join_cons, groups_lookup_default. }
  rewrite fmap_app. apply NoDup_app. split; [|split; [|done]].
  - apply (sublist_NoDup _ (id <$> notifications)); [done|].
    apply fmap_sublist.
    etrans; [apply sublist_take|]. apply sublist_filter.
  - intros i (n1 & -> & Hn1)%list_elem_of_fmap (n2 & Heq & Hn2)%list_elem_of_fmap.
    destruct (elem_of_take_bucket _ _ _ _ Hn1) as [Hl1 Hk1].
    destruct (elem_of_retained_groups _ _ _ Hn2) as (Hl2 & Hk2 & _).
    assert (n1 = n2) as -> by by apply (NoDup_fmap_eq id notifications).
    by rewrite Hk1 in Hk2.
Qed.

(** ** The side table after the effect *)

Lemma prune_fold_lookup aliveIds ks : ∀ (m : gmap string nat) i,
  fold_left (λ m k, prune_step aliveIds k m) ks m !! i =
    if decide (i ∈ ks ∧ i ∉ aliveIds) then None else m !! i.
Proof.
  induction ks as [|k ks IH]; intros m i; cbn [fold_left].
  - case_decide as H; [|done]. destruct H as [[]%elem_of_nil _].
  - rewrite IH. unfold prune_step.
    destruct (decide (i ∈ ks ∧ i ∉ aliveIds)) as [[Hin Hdead]|Hno].
    + rewrite decide_True; [done|]. split; [by right|done].
    + destruct (decide (k ∈ aliveIds)) as [Hk|Hk].
      * rewrite decide_False; [done|].
        intros [[->|Hin]%elem_of_cons Hdead]; tauto.
      * destruct (decide (i = k)) as [->|Hne].
        -- rewrite lookup_delete_eq. rewrite decide_True; [done|].
           split; [by left|done].
        -- rewrite lookup_delete_ne by done. rewrite decide_False; [done|].
           intros [[->|Hin]%elem_of_cons Hdead]; tauto.
Qed.

(** After the effect, an id that is not live has no entry, and the
    entry of a live id is as the render left it. *)
Lemma cleanup_lookup notifications (m : gmap string nat) i :
  cleanup notifications m !! i =
    if decide (i ∈ id <$> notifications) then m !! i else None.
Proof.
  unfold cleanup. rewrite prune_fold_lookup.
  destruct (decide (i ∈ id <$> notifications)) as [Hin|Hout].
  - rewrite decide_False; [done|]. intros [_ Hdead]. apply Hdead.
    by apply elem_of_list_to_set.
  - destruct (m !! i) as [v|] eqn:Hm.
    + rewrite decide_True; [done|]. split.
      * apply list_elem_of_fmap. exists (i, v). split; [done|].
        by apply elem_of_map_to_list.
      * by rewrite elem_of_list_to_set.
    + by case_decide.
Qed.

(** ** The buckets partition the live list *)

Lemma filter_key_split k ks (l : list NotificationProps) :
  k ∉ ks →
  bucket_of k l ++ filter (λ n, align_key n ∈ ks) l ≡ₚ
    filter (λ n, align_key n ∈ k :: ks) l.
Proof.
  intros Hk. induction l as [|n l IH]; [done|].
  rewrite bucket_of_cons, !filter_cons.
  destruct (decide (align_key n = k)) as [->|Hne].
  - rewrite decide_False by done. rewrite decide_True by by left.
    cbn. by rewrite IH.
  - destruct (decide (align_key n ∈ ks)) as [Hin|Hout].
    + rewrite decide_True by by right.
      rewrite <- Permutation_middle. by rewrite IH.
    + rewrite decide_False; [done|].
      intros [?|?]%elem_of_cons; tauto.
Qed.

Lemma buckets_permutation keys (l : list NotificationProps) :
  NoDup keys →
  mjoin ((λ k, bucket_of k l) <$> keys) ≡ₚ
    filter (λ n, align_key n ∈ keys) l.
Proof.
  induction 1 as [|k ks Hk Hks IH].
  - cbn. induction l as [|n l IHl]; [done|].
    rewrite filter_cons. rewrite decide_False; [done|]. apply not_elem_of_nil.
  - rewrite fmap_cons, join_cons, IH. by apply filter_key_split.
Qed.

Lemma filter_in_ORDER (l : list NotificationProps) :
  filter (λ n, align_key n ∈ ORDER) l = l.
Proof.
  induction l as [|n l IH]; [done|].
  rewrite filter_cons, decide_True by apply align_key_in_ORDER.
  by rewrite IH.
Qed.

(** * The claims about the manager *)

(** C1.  In every render, the slot of each anchor key holds the first
    seven entries, in list order, of that key's bucket, so at most seven
    cards; and, ids being distinct, an entry that is eighth or later in
    its bucket is rendered in no slot. *)
Theorem C1_first_seven_per_bucket (prev : gmap string nat)
    (notifications : list NotificationProps) (k : nat) (key : string) :
  ORDER !! k = Some key →
  ∃ slot,
    (NotificationManager prev notifications).1 !! k = Some slot ∧
    el_props <$> default [] slot = take 7 (bucket_of key notifications) ∧
    (length (default [] slot) ≤ 7)%nat ∧
    (NoDup (id <$> notifications) →
     ∀ j n, (7 ≤ j)%nat → bucket_of key notifications !! j = Some n →
       id n ∉ el_key <$> rendered (NotificationManager prev notifications).1).
Proof.
  intros Hk. unfold NotificationManager.
  pose proof (render_keys_props (groups notifications) ORDER prev) as Hp.
  apply (f_equal (λ l, l !! k)) in Hp.
  rewrite !list_lookup_fmap, Hk in Hp.
  destruct ((render_keys (groups notifications) prev ORDER).1 !! k)
    as [slot|] eqn:Hs; [|done].
  injection Hp as Hp.
  assert (el_props <$> default [] slot = take 7 (bucket_of key notifications))
    as Hprops.
  { rewrite <- groups_lookup_default.
    destruct slot as [els|], (groups notifications !! key) as [b|];
      cbn in *; congruence. }
  exists slot. split; [done|]. split; [done|]. split.
  { rewrite <- (length_fmap el_props), Hprops, length_take. lia. }
  intros Hnd j n Hj Hn Hin.
  rewrite render_keys_rendered_keys in Hin.
  apply list_elem_of_fmap in Hin as (m & Heq & Hm).
  apply elem_of_retained_groups in Hm as (Hml & _ & Hm7).
  assert (n ∈ bucket_of key notifications) as Hnb
    by by eapply list_elem_of_lookup_2.
  destruct (elem_of_take_bucket n key (length (bucket_of key notifications))
              notifications) as [Hnl Hnk].
  { by rewrite firstn_all. }
  assert (n = m) as <- by by apply (NoDup_fmap_eq id notifications).
  rewrite Hnk in Hm7. apply elem_of_take in Hm7 as (j' & Hj' & Hlt).
  assert (NoDup (bucket_of key notifications)) as Hndb.
  { apply (sublist_NoDup _ notifications); [|apply sublist_filter].
    by apply (NoDup_fmap_1 id). }
  pose proof (NoDup_lookup _ _ _ _ Hndb Hn Hj'). lia.
Qed.

(** Of eight live notifications without an anchor, the eighth is not
    rendered. *)
Lemma C1_first_seven_per_bucket_witness :
  "n8" ∉ el_key <$> rendered (NotificationManager ∅ eight).1.
Proof.
  destruct (C1_first_seven_per_bucket ∅ eight 1 "top-middle")
    as (slot & _ & _ & _ & H8); [reflexivity|].
  apply (H8 ltac:(apply (bool_decide_unpack _); vm_compute; exact I)
            7 (sample "n8" None false)); [lia|reflexivity].
Defined.

(** C3.  There are six anchor keys, all different; every notification
    falls under one of them, the one named by its (vertical, horizontal)
    anchor, and under top-middle when it has no anchor; the buckets the
    manager builds are the sub-lists of the live list per key, and
    together they hold the live list's entries exactly once each; the
    slots of a render follow [ORDER]. *)
Theorem C3_six_buckets_in_order (prev : gmap string nat)
    (notifications : list NotificationProps) :
  ORDER = [ "top-left"; "top-middle"; "top-right";
            "bottom-left"; "bottom-middle"; "bottom-right" ] ∧
  length ORDER = 6%nat ∧ NoDup ORDER ∧
  (∀ n, align_key n ∈ ORDER) ∧
  (∀ n v h, align n = Some (Some v, Some h) →
     align_key n = vertical_name v +:+ "-" +:+ horizontal_name h) ∧
  (∀ n, align n = None → align_key n = "top-middle") ∧
  (∀ key, groups notifications !! key =
     match bucket_of key notifications with [] => None | b => Some b end) ∧
  mjoin ((λ key, bucket_of key notifications) <$> ORDER) ≡ₚ notifications ∧
  length (NotificationManager prev notifications).1 = 6%nat ∧
  fmap (fmap el_props) <$> (NotificationManager prev notifications).1 =
    (λ key, take 7 <$> groups notifications !! key) <$> ORDER.
Proof.
  split; [done|]. split; [done|]. split; [apply NoDup_ORDER|].
  split; [apply align_key_in_ORDER|].
  split. { intros n v h Ha. unfold align_key. by rewrite Ha. }
  split. { intros n Ha. unfold align_key. by rewrite Ha. }
  split; [apply groups_lookup|]. split.
  - rewrite buckets_permutation by apply NoDup_ORDER.
    by rewrite filter_in_ORDER.
  - split; [|apply render_keys_props].
    unfold NotificationManager.
    rewrite <- (length_fmap (fmap (fmap el_props))), render_keys_props.
    by rewrite length_fmap.
Qed.

(** A notification without an anchor, and one anchored bottom-right. *)
Lemma C3_six_buckets_in_order_witness :
  align_key (sample "n1" None false) = "top-middle" ∧
  align_key (sample "n2" (Some (Some Vbottom, Some Hright)) false) =
    "bottom-right".
Proof.
  destruct (C3_six_buckets_in_order ∅ [])
    as (_ & _ & _ & _ & Hvh & Hnone & _).
  split.
  - apply Hnone. reflexivity.
  - apply (Hvh _ Vbottom Hright). reflexivity.
Defined.

(** C2, as stated, fails: an exiting entry whose id has no index in the
    side table gets the current value of the counter.  Here ["b"] is
    exiting, the table is empty, and ["b"] is rendered with index 1, the
    counter after the live entry ["a"]. *)
Lemma C2_exiting_without_record :
  ¬ (∀ (prev : gmap string nat) notifications e,
       e ∈ rendered (NotificationManager prev notifications).1 →
       isExiting (el_props e) = true →
       prev !! el_key e = Some (el_index e)).
Proof.
  intros H.
  specialize (H ∅ [sample "a" None false; sample "b" None true]
    {| el_key := "b"; el_props := sample "b" None true;
       el_colored := Cfull; el_index := 1; el_onClose := "b" |}).
  assert ((∅ : gmap string nat) !! "b" = Some 1%nat) as Habs;
    [|by rewrite lookup_empty in Habs].
  apply H; [|reflexivity].
  vm_compute. apply list_elem_of_further, list_elem_of_here.
Qed.

(** C2, amended.  With distinct ids, the entry at position [j] of a
    rendered bucket gets: when it is not exiting, the number of
    non-exiting entries before it in the bucket (the counter); when it
    is exiting, the index recorded for its id in the side table before
    the render if there is one, and the counter otherwise.  The render
    records the index it gave under the entry's id, and the effect
    leaves no entry for an id that is not in the live list while keeping
    the entries of live ids. *)
Theorem C2_stacking_indices (prev : gmap string nat)
    (notifications : list NotificationProps) (k : nat) (key : string)
    (j : nat) (n : NotificationProps) :
  NoDup (id <$> notifications) →
  ORDER !! k = Some key →
  take 7 (bucket_of key notifications) !! j = Some n →
  (∃ els e,
     (NotificationManager prev notifications).1 !! k = Some (Some els) ∧
     els !! j = Some e ∧ el_props e = n ∧
     el_index e =
       (let counter := count_active (take j (bucket_of key notifications)) in
        if isExiting n then default counter (prev !! id n) else counter) ∧
     (NotificationManager prev notifications).2 !! id n = Some (el_index e)) ∧
  (∀ (live : list NotificationProps) (table : gmap string nat) i,
     cleanup live table !! i =
       if decide (i ∈ id <$> live) then table !! i else None).
Proof.
  intros Hnd Hk Hj. split; [|intros; apply cleanup_lookup].
  unfold NotificationManager.
  rewrite <- groups_lookup_default in Hj.
  destruct (render_keys_entry (groups notifications) ORDER prev k key j n)
    as (slot & e & Hs & He & Hp & Hi & Ht); [|done|done|].
  { apply retained_NoDup; [apply NoDup_ORDER|done]. }
  destruct slot as [els|]; [|done].
  exists els, e. rewrite groups_lookup_default in Hi. done.
Qed.

(** Live, exiting with record 5, exiting without a record, live. *)
Lemma C2_stacking_indices_witness :
  ∃ els e,
    (NotificationManager {["b" := 5%nat]}
       [sample "a" None false; sample "b" None true;
        sample "c" None true; sample "d" None false]).1 !! 1%nat
      = Some (Some els) ∧
    el_index <$> els = [0; 5; 1; 1]%nat ∧
    els !! 1%nat = Some e ∧ el_index e = 5%nat.
Proof.
  destruct (C2_stacking_indices {["b" := 5%nat]}
      [sample "a" None false; sample "b" None true;
       sample "c" None true; sample "d" None false]
      1 "top-middle" 1 (sample "b" None true))
    as [(els & e & Hs & He & Hp & Hi & Ht) _].
  - apply (bool_decide_unpack _). vm_compute. exact I.
  - reflexivity.
  - reflexivity.
  - exists els, e. split; [exact Hs|].
    vm_compute in Hs. injection Hs as <-.
    split; [reflexivity|]. split; [exact He|].
    vm_compute in He. injection He as <-. reflexivity.
Defined.

(** * The claims about the card *)

Import Card.

Local Open Scope Z_scope.

(** C4.  In colored mode ["none"] the three colours are those of the
    ["none"] entry of the palette of the current mode, whatever the
    notification's type and whatever theme it carries. *)
Theorem C4_colored_none_uses_palette_none
    (type : NotificationType) (userTheme : option NotificationThemeType)
    (lightTheme darkTheme : NotificationType → NotificationThemeType)
    (mode : ThemeMode) :
  let palette := match mode with light => lightTheme | dark => darkTheme end in
  computeColors Cnone type userTheme lightTheme darkTheme mode =
    {| bg := backgroundColor (palette Tnone);
       border := borderColor (palette Tnone);
       color := fontColor (palette Tnone) |} ∧
  ∀ type' userTheme',
    computeColors Cnone type' userTheme' lightTheme darkTheme mode =
    computeColors Cnone type userTheme lightTheme darkTheme mode.
Proof. by destruct mode. Qed.

(** ** Unfolding the handlers *)

Lemma hypot_gt_true dx dy t :
  hypot_gt dx dy t = true ↔ t * t < dx * dx + dy * dy.
Proof. unfold hypot_gt. apply Z.ltb_lt. Qed.

Lemma hypot_gt_false dx dy t :
  hypot_gt dx dy t = false ↔ dx * dx + dy * dy ≤ t * t.
Proof. unfold hypot_gt. apply Z.ltb_ge. Qed.

Lemma exits_emit_exit i s : exits (emit (ExitNotification i) s) = exits s ++ [i].
Proof. unfold exits, emit. cbn. by rewrite omap_app. Qed.

Lemma exits_emit_release p s : exits (emit (ReleasePointerCapture p) s) = exits s.
Proof. unfold exits, emit. cbn. by rewrite omap_app, app_nil_r. Qed.

Lemma exits_emit_capture p s : exits (emit (SetPointerCapture p) s) = exits s.
Proof. unfold exits, emit. cbn. by rewrite omap_app, app_nil_r. Qed.

Lemma exits_handleClick h s : exits (handleClick h s) = exits s.
Proof.
  unfold handleClick. destruct h, (clickSuppressedRef s); try done.
  unfold exits, emit. cbn. by rewrite !omap_app, !app_nil_r.
Qed.

Lemma exits_finalizeDrag i b s :
  exits (finalizeDrag i b s) = if b then exits s ++ [i] else exits s.
Proof. unfold finalizeDrag. destruct b; [by rewrite exits_emit_exit|done]. Qed.

Lemma pushed_far c : 6 < Z.abs c → pushed c = c + Z.sgn c * 120.
Proof.
  intros H. unfold pushed, DRAG_RELEASE_PUSH.
  by rewrite (proj2 (Z.ltb_lt _ _) H).
Qed.

Lemma pushed_near c : Z.abs c ≤ 6 → pushed c = c.
Proof.
  intros H. unfold pushed. rewrite (proj2 (Z.ltb_ge _ _) H). lia.
Qed.

(** C6.  Finalizing a drag with exit sets the offset, per axis, to the
    component plus 120 px in the component's direction when the
    component's absolute value exceeds 6 px, and to the component itself
    when it is at most 6 px; then it calls [exitNotification] once, with
    the card's id. *)
Theorem C6_release_push (i : string) (s : CardState) :
  let off := dragOffsetRef s in
  let s' := finalizeDrag i true s in
  (6 < Z.abs (x off) →
     x (dragOffset s') = x off + Z.sgn (x off) * 120 ∧
     Z.abs (x (dragOffset s')) = Z.abs (x off) + 120) ∧
  (Z.abs (x off) ≤ 6 → x (dragOffset s') = x off) ∧
  (6 < Z.abs (y off) →
     y (dragOffset s') = y off + Z.sgn (y off) * 120 ∧
     Z.abs (y (dragOffset s')) = Z.abs (y off) + 120) ∧
  (Z.abs (y off) ≤ 6 → y (dragOffset s') = y off) ∧
  dragOffsetRef s' = dragOffset s' ∧
  exits s' = exits s ++ [i].
Proof.
  cbn. repeat split.
  - by apply pushed_far.
  - rewrite pushed_far by done. lia.
  - by apply pushed_near.
  - by apply pushed_far.
  - rewrite pushed_far by done. lia.
  - by apply pushed_near.
  - apply exits_emit_exit.
Qed.

(** An offset of (-50, 3) is released at (-170, 3). *)
Lemma C6_release_push_witness :
  dragOffset
    (finalizeDrag "n1" true (updateDragOffset {| x := -50; y := 3 |} initial))
  = {| x := -170; y := 3 |}.
Proof.
  destruct (C6_release_push "n1"
              (updateDragOffset {| x := -50; y := 3 |} initial))
    as (Hx & _ & _ & Hy & _).
  destruct Hx as [Hx _]; [cbn; lia|].
  specialize (Hy ltac:(cbn; lia)).
  destruct (dragOffset _) as [x' y']. cbn in Hx, Hy. by rewrite Hx, Hy.
Defined.

(** C5, as stated, fails at the threshold itself: a card dragged by
    exactly 100 px and released snaps back and does not exit.  The state
    is the one reached by a pointer-down at (0, 0) and a pointer-move to
    (100, 0). *)
Lemma C5_release_at_exactly_100 :
  ¬ (∀ (i : string) (e : PointerEvent) (s : CardState),
       is_Some (dragStartRef s) →
       DRAG_CLOSE_DISTANCE * DRAG_CLOSE_DISTANCE ≤
         x (dragOffsetRef s) * x (dragOffsetRef s) +
         y (dragOffsetRef s) * y (dragOffsetRef s) →
       exits (handlePointerUp i e s) = exits s ++ [i]).
Proof.
  intros H.
  specialize (H "n1" (at_ 100 0)
    (run "n1" false initial [PointerDown (at_ 0 0); PointerMove (at_ 100 0)])).
  discriminate H; [by eexists | by vm_compute].
Qed.

(** C5, amended.  On pointer-up with a drag start recorded (the gesture
    was not auto-closed by a move): when the displacement of the recorded
    offset is strictly greater than 100 px the card exits, with the
    release push applied; when it is at most 100 px the offset snaps
    back to (0, 0) and no exit is triggered.  Either way the drag start
    and the latch are cleared. *)
Theorem C5_pointer_up_release (i : string) (e : PointerEvent)
    (s : CardState) (start : Point) :
  dragStartRef s = Some start →
  let off := dragOffsetRef s in
  let s' := handlePointerUp i e s in
  (100 * 100 < x off * x off + y off * y off →
     exits s' = exits s ++ [i] ∧
     dragOffset s' = {| x := pushed (x off); y := pushed (y off) |}) ∧
  (x off * x off + y off * y off ≤ 100 * 100 →
     exits s' = exits s ∧
     dragOffset s' = {| x := 0; y := 0 |} ∧
     dragOffsetRef s' = {| x := 0; y := 0 |}) ∧
  dragStartRef s' = None ∧ isDraggingOutRef s' = false.
Proof.
  intros Hstart. cbn zeta. unfold handlePointerUp. rewrite Hstart.
  split; [|split; [|done]].
  - intros Hfar%(hypot_gt_true _ _ 100).
    unfold DRAG_CLOSE_DISTANCE. cbn [dragOffsetRef emit]. rewrite Hfar.
    split; [|done].
    change (exits (finalizeDrag i true (emit (ReleasePointerCapture (pointerId e)) s))
            = exits s ++ [i]).
    by rewrite exits_finalizeDrag, exits_emit_release.
  - intros Hnear%(hypot_gt_false _ _ 100).
    unfold DRAG_CLOSE_DISTANCE. cbn [dragOffsetRef emit]. rewrite Hnear.
    split; [|done].
    change (exits (finalizeDrag i false (emit (ReleasePointerCapture (pointerId e)) s))
            = exits s).
    by rewrite exits_finalizeDrag, exits_emit_release.
Qed.

(** A release at (80, 60), 100 px from the start, snaps back. *)
Lemma C5_pointer_up_release_witness :
  exits (handlePointerUp "n1" (at_ 80 60)
           (run "n1" false initial
              [PointerDown (at_ 0 0); PointerMove (at_ 80 60)])) = [] ∧
  dragOffset (handlePointerUp "n1" (at_ 80 60)
           (run "n1" false initial
              [PointerDown (at_ 0 0); PointerMove (at_ 80 60)]))
    = {| x := 0; y := 0 |}.
Proof.
  destruct (C5_pointer_up_release "n1" (at_ 80 60)
              (run "n1" false initial
                 [PointerDown (at_ 0 0); PointerMove (at_ 80 60)])
              {| x := 0; y := 0 |})
    as (_ & Hnear & _); [reflexivity|].
  destruct Hnear as (He & Ho & _); [vm_compute; discriminate|].
  split; [exact He | exact Ho].
Defined.

(** ** The suppression flag along a gesture *)

Lemma handlePointerMove_near i e s start :
  dragStartRef s = Some start →
  hypot_gt (clientX e - x start) (clientY e - y start) 4 = false →
  handlePointerMove i e s =
    updateDragOffset
      {| x := clientX e - x start; y := clientY e - y start |} s.
Proof.
  intros Hs Hnear. unfold handlePointerMove. rewrite Hs. cbn zeta.
  rewrite Hnear.
  assert (hypot_gt (clientX e - x start) (clientY e - y start)
            DRAG_CLOSE_DISTANCE = false) as ->; [|done].
  apply hypot_gt_false. apply hypot_gt_false in Hnear.
  unfold DRAG_CLOSE_DISTANCE. lia.
Qed.

Lemma handlePointerMove_far_flag i e s start :
  dragStartRef s = Some start →
  hypot_gt (clientX e - x start) (clientY e - y start) 4 = true →
  clickSuppressedRef (handlePointerMove i e s) = true.
Proof.
  intros Hs Hfar. unfold handlePointerMove. rewrite Hs. cbn zeta.
  rewrite Hfar. by destruct (_ && _).
Qed.

Lemma handlePointerMove_flag_sticky i e s :
  clickSuppressedRef s = true →
  clickSuppressedRef (handlePointerMove i e s) = true.
Proof.
  intros Hf. unfold handlePointerMove.
  destruct (dragStartRef s) as [start|]; [|done]. cbn zeta.
  destruct (hypot_gt _ _ 4); by destruct (_ && _).
Qed.

Lemma release_keeps_flag i e s :
  clickSuppressedRef (handlePointerUp i e s) = clickSuppressedRef s ∧
  clickSuppressedRef (handlePointerCancel i e s) = clickSuppressedRef s.
Proof.
  unfold handlePointerUp, handlePointerCancel.
  destruct (dragStartRef s); [|done]. cbn zeta.
  by destruct (hypot_gt _ _ _).
Qed.

Lemma clicks_emit e s : e ≠ OnClick → clicks (emit e s) = clicks s.
Proof.
  intros He. unfold clicks, emit. cbn [trace].
  rewrite filter_app, length_app. rewrite filter_cons, decide_False by done.
  cbn. lia.
Qed.

Lemma clicks_finalizeDrag i b s : clicks (finalizeDrag i b s) = clicks s.
Proof.
  unfold finalizeDrag. destruct b; [|done]. by rewrite clicks_emit.
Qed.

(** Only a click runs the notification's click handler. *)
Lemma clicks_step_pointer i h s ev :
  ev ≠ Click → clicks (step i h s ev) = clicks s.
Proof.
  intros Hev. destruct ev as [e|e|e|e|]; [| | | |done]; cbn [step].
  - unfold handlePointerDown. by rewrite clicks_emit.
  - unfold handlePointerMove. destruct (dragStartRef s) as [start|]; [|done].
    cbn zeta. destruct (_ && _); [|by destruct (hypot_gt _ _ 4)].
    match goal with
    | |- context [finalizeDrag i true ?t] =>
        change (clicks (emit (ReleasePointerCapture (pointerId e))
                          (finalizeDrag i true t)) = clicks s)
    end.
    rewrite clicks_emit, clicks_finalizeDrag by done.
    by destruct (hypot_gt _ _ 4).
  - unfold handlePointerUp. destruct (dragStartRef s) as [start|]; [|done].
    cbn zeta.
    match goal with
    | |- context [finalizeDrag i ?b ?t] =>
        change (clicks (finalizeDrag i b t) = clicks s)
    end.
    by rewrite clicks_finalizeDrag, clicks_emit.
  - unfold handlePointerCancel. destruct (dragStartRef s) as [start|]; [|done].
    change (clicks (finalizeDrag i false
                      (emit (ReleasePointerCapture (pointerId e)) s))
            = clicks s).
    by rewrite clicks_finalizeDrag, clicks_emit.
Qed.

Lemma run_cons i h s ev evs :
  run i h s (ev :: evs) = run i h (step i h s ev) evs.
Proof. done. Qed.

Lemma run_app i h s evs evs' :
  run i h s (evs ++ evs') = run i h (run i h s evs) evs'.
Proof. unfold run. apply fold_left_app. Qed.

Lemma clicks_run_moves i h (moves : list PointerEvent) : ∀ s,
  clicks (run i h s (PointerMove <$> moves)) = clicks s.
Proof.
  induction moves as [|e moves IH]; intros s; [done|].
  rewrite fmap_cons, run_cons, IH. by apply clicks_step_pointer.
Qed.

Lemma flag_run_moves_sticky i h (moves : list PointerEvent) : ∀ s,
  clickSuppressedRef s = true →
  clickSuppressedRef (run i h s (PointerMove <$> moves)) = true.
Proof.
  induction moves as [|e moves IH]; intros s Hf; [done|].
  rewrite fmap_cons, run_cons. apply IH.
  by apply handlePointerMove_flag_sticky.
Qed.

(** Moves that all stay within 4 px of the drag start leave the flag
    and the drag start as they are. *)
Lemma flag_run_moves_near i h down (moves : list PointerEvent) : ∀ s,
  dragStartRef s = Some {| x := clientX down; y := clientY down |} →
  Forall (λ e, beyond 4 down e = false) moves →
  clickSuppressedRef (run i h s (PointerMove <$> moves))
    = clickSuppressedRef s.
Proof.
  induction moves as [|e moves IH]; intros s Hs Hnear; [done|].
  apply Forall_cons in Hnear as [He Hnear].
  rewrite fmap_cons, run_cons. cbn [step].
  rewrite (handlePointerMove_near i e s _ Hs He).
  by rewrite IH.
Qed.

(** A move more than 4 px from the drag start sets the flag for the
    rest of the moves, wherever in the gesture it comes. *)
Lemma flag_run_moves_far i h down (moves : list PointerEvent) : ∀ s,
  dragStartRef s = Some {| x := clientX down; y := clientY down |} →
  Exists (λ e, beyond 4 down e = true) moves →
  clickSuppressedRef (run i h s (PointerMove <$> moves)) = true.
Proof.
  induction moves as [|e moves IH]; intros s Hs Hfar.
  { by apply Exists_nil in Hfar. }
  rewrite fmap_cons, run_cons. cbn [step].
  destruct (beyond 4 down e) eqn:He.
  - apply flag_run_moves_sticky.
    by apply (handlePointerMove_far_flag i e s _ Hs).
  - apply Exists_cons in Hfar as [Hfar|Hfar]; [congruence|].
    rewrite (handlePointerMove_near i e s _ Hs He). by apply IH.
Qed.

(** C7.  A pointer-move more than 4 px away from a recorded drag start
    sets the suppression flag; a move within 4 px leaves the flag as it
    is, and a flag that is set stays set through later moves,
    pointer-up and pointer-cancel.  A click on a card with a click
    handler runs the handler exactly when the flag is unset, and leaves
    the flag unset either way: after a suppressed click, the next click
    runs the handler.  A card without a click handler ignores clicks.  A
    pointer-down clears the flag.  So, for a gesture (pointer-down,
    moves, then pointer-up or pointer-cancel) from any state: the
    gesture itself never runs the handler; when some move of it went
    more than 4 px from where it started, the click that follows is
    suppressed; when every move stayed within 4 px, the click that
    follows runs the handler. *)
Theorem C7_click_suppression (i : string) :
  (∀ (e : PointerEvent) (s : CardState) (start : Point),
     dragStartRef s = Some start →
     4 * 4 < (clientX e - x start) * (clientX e - x start) +
             (clientY e - y start) * (clientY e - y start) →
     clickSuppressedRef (handlePointerMove i e s) = true) ∧
  (∀ s, clickSuppressedRef s = true →
     clicks (handleClick true s) = clicks s ∧
     clickSuppressedRef (handleClick true s) = false ∧
     clicks (handleClick true (handleClick true s)) = S (clicks s)) ∧
  (∀ s, clickSuppressedRef s = false →
     clicks (handleClick true s) = S (clicks s) ∧
     clickSuppressedRef (handleClick true s) = false) ∧
  (∀ s, handleClick false s = s) ∧
  (∀ e s, clickSuppressedRef (handlePointerDown e s) = false) ∧
  (∀ (e : PointerEvent) (s : CardState) (start : Point),
     dragStartRef s = Some start →
     (clientX e - x start) * (clientX e - x start) +
     (clientY e - y start) * (clientY e - y start) ≤ 4 * 4 →
     clickSuppressedRef (handlePointerMove i e s) = clickSuppressedRef s) ∧
  (∀ e s, clickSuppressedRef s = true →
     clickSuppressedRef (handlePointerMove i e s) = true) ∧
  (∀ e s,
     clickSuppressedRef (handlePointerUp i e s) = clickSuppressedRef s ∧
     clickSuppressedRef (handlePointerCancel i e s) = clickSuppressedRef s) ∧
  (∀ (s : CardState) (down : PointerEvent) (moves : list PointerEvent)
     (release : Event),
     (∃ e, release = PointerUp e ∨ release = PointerCancel e) →
     let s' := run i true s
                 (PointerDown down :: (PointerMove <$> moves) ++ [release]) in
     clicks s' = clicks s ∧
     (Exists (λ e, beyond 4 down e = true) moves →
        clickSuppressedRef s' = true ∧
        clicks (handleClick true s') = clicks s) ∧
     (Forall (λ e, beyond 4 down e = false) moves →
        clickSuppressedRef s' = false ∧
        clicks (handleClick true s') = S (clicks s))).
Proof.
  assert (∀ s, clickSuppressedRef s = true →
     clicks (handleClick true s) = clicks s ∧
     clickSuppressedRef (handleClick true s) = false ∧
     clicks (handleClick true (handleClick true s)) = S (clicks s)) as Hsup.
  { intros s Hs. unfold handleClick. rewrite Hs. cbn.
    split; [done|]. split; [done|].
    unfold clicks. cbn. rewrite !filter_app, !length_app. cbn.
    repeat case_decide; try done; cbn; lia. }
  assert (∀ s, clickSuppressedRef s = false →
     clicks (handleClick true s) = S (clicks s) ∧
     clickSuppressedRef (handleClick true s) = false) as Hrun.
  { intros s Hs. unfold handleClick. rewrite Hs. cbn.
    split; [|done].
    unfold clicks. cbn. rewrite !filter_app, !length_app. cbn.
    repeat case_decide; try done; cbn; lia. }
  split; [|split; [exact Hsup|split; [exact Hrun|split; [done|split; [done|]]]]].
  { intros e s start Hstart Hfar%hypot_gt_true.
    by apply (handlePointerMove_far_flag i e s start). }
  split.
  { intros e s start Hstart Hnear%hypot_gt_false.
    by rewrite (handlePointerMove_near i e s start). }
  split; [intros; by apply handlePointerMove_flag_sticky|].
  split; [intros; apply release_keeps_flag|].
  intros s down moves release Hrel. cbn zeta.
  rewrite run_cons, run_app. cbn [step].
  set (s0 := handlePointerDown down s).
  set (s1 := run i true s0 (PointerMove <$> moves)).
  assert (dragStartRef s0 = Some {| x := clientX down; y := clientY down |})
    as Hstart by done.
  assert (clickSuppressedRef s0 = false) as Hflag0 by done.
  assert (clicks s0 = clicks s) as Hc0.
  { unfold s0, handlePointerDown. by rewrite clicks_emit. }
  assert (clicks (run i true s1 [release]) = clicks s) as Hc.
  { rewrite run_cons. cbn [run fold_left].
    rewrite clicks_step_pointer; [|by destruct Hrel as [e [-> | ->]]].
    unfold s1. by rewrite clicks_run_moves. }
  assert (clickSuppressedRef (run i true s1 [release]) = clickSuppressedRef s1)
    as Hrelease.
  { rewrite run_cons. cbn [run fold_left].
    destruct Hrel as [e [-> | ->]]; cbn [step]; apply release_keeps_flag. }
  split; [exact Hc|]. split.
  - intros Hfar.
    assert (clickSuppressedRef (run i true s1 [release]) = true) as Hf.
    { rewrite Hrelease. by apply (flag_run_moves_far i true down). }
    split; [done|]. destruct (Hsup _ Hf) as [-> _]. exact Hc.
  - intros Hnear.
    assert (clickSuppressedRef (run i true s1 [release]) = false) as Hf.
    { rewrite Hrelease. unfold s1.
      by rewrite (flag_run_moves_near i true down). }
    split; [done|]. destruct (Hrun _ Hf) as [-> _]. by rewrite Hc.
Qed.

(** A 5 px drag suppresses the first click after it, not the second; a
    drag that comes back to its start still suppresses the click; a
    3 px jitter does not. *)
Lemma C7_click_suppression_witness :
  clickSuppressedRef
    (run "n1" true initial [PointerDown (at_ 0 0); PointerMove (at_ 3 4)])
    = true ∧
  clicks
    (handleClick true (handleClick true
       (run "n1" true initial
          [PointerDown (at_ 0 0); PointerMove (at_ 3 4); PointerUp (at_ 3 4)])))
    = 1%nat ∧
  clicks
    (handleClick true
       (run "n1" true initial
          (PointerDown (at_ 0 0) ::
           (PointerMove <$> [at_ 10 0; at_ 1 0]) ++ [PointerUp (at_ 1 0)])))
    = 0%nat ∧
  clicks
    (handleClick true
       (run "n1" true initial
          (PointerDown (at_ 0 0) ::
           (PointerMove <$> [at_ 2 2; at_ 0 3]) ++ [PointerUp (at_ 0 3)])))
    = 1%nat.
Proof.
  destruct (C7_click_suppression "n1")
    as (Hmove & Hsup & _ & _ & _ & _ & _ & _ & Hgesture).
  split; [|split; [|split]].
  - apply (Hmove (at_ 3 4) (handlePointerDown (at_ 0 0) initial)
             {| x := 0; y := 0 |}); [reflexivity|vm_compute; reflexivity].
  - destruct (Hsup (run "n1" true initial
       [PointerDown (at_ 0 0); PointerMove (at_ 3 4); PointerUp (at_ 3 4)]))
      as (_ & _ & Htwice); [vm_compute; reflexivity|].
    exact Htwice.
  - destruct (Hgesture initial (at_ 0 0) [at_ 10 0; at_ 1 0]
                (PointerUp (at_ 1 0))) as (_ & Hfar & _);
      [by eexists; left|].
    destruct Hfar as [_ Hc]; [|exact Hc].
    apply Exists_cons_hd. vm_compute. reflexivity.
  - destruct (Hgesture initial (at_ 0 0) [at_ 2 2; at_ 0 3]
                (PointerUp (at_ 0 3))) as (_ & _ & Hnear);
      [by eexists; left|].
    destruct Hnear as [_ Hc]; [|exact Hc].
    repeat constructor.
Defined.

(** C8, as stated, fails: a pointer-cancel that finds no drag start
    recorded leaves the offset as it is.  After a pointer-down at (0, 0)
    and a pointer-move to (101, 0) the card has auto-closed, the drag
    start is cleared and the offset is (221, 0); a pointer-cancel then
    does not reset it. *)
Lemma C8_cancel_after_auto_close :
  ¬ (∀ (i : string) (e : PointerEvent) (s : CardState),
       dragOffset (handlePointerCancel i e s) = {| x := 0; y := 0 |}).
Proof.
  intros H.
  specialize (H "n1" (at_ 101 0)
    (run "n1" false initial [PointerDown (at_ 0 0); PointerMove (at_ 101 0)])).
  vm_compute in H. discriminate H.
Qed.

(** C8, amended.  A pointer-cancel never triggers exit, whatever the
    offset and the history; when it finds a drag start recorded it
    resets the offset to (0, 0) and clears the drag start and the
    latch. *)
Theorem C8_pointer_cancel (i : string) (e : PointerEvent) (s : CardState) :
  exits (handlePointerCancel i e s) = exits s ∧
  (is_Some (dragStartRef s) →
     dragOffset (handlePointerCancel i e s) = {| x := 0; y := 0 |} ∧
     dragOffsetRef (handlePointerCancel i e s) = {| x := 0; y := 0 |} ∧
     dragStartRef (handlePointerCancel i e s) = None ∧
     isDraggingOutRef (handlePointerCancel i e s) = false).
Proof.
  unfold handlePointerCancel. destruct (dragStartRef s) as [start|] eqn:Hs.
  - split; [|done].
    change (exits (emit (ReleasePointerCapture (pointerId e)) s) = exits s).
    apply exits_emit_release.
  - split; [done|]. by intros [? ?].
Qed.

(** A cancel during a 90 px drag resets the offset. *)
Lemma C8_pointer_cancel_witness :
  dragOffset
    (run "n1" false initial
       [PointerDown (at_ 0 0); PointerMove (at_ 90 0); PointerCancel (at_ 90 0)])
    = {| x := 0; y := 0 |}.
Proof.
  destruct (C8_pointer_cancel "n1" (at_ 90 0)
    (run "n1" false initial [PointerDown (at_ 0 0); PointerMove (at_ 90 0)]))
    as [_ H].
  destruct H as (Ho & _); [by eexists|]. exact Ho.
Defined.

(** C9.  Without a drag start recorded, pointer-move, pointer-up and
    pointer-cancel leave the whole state of the card as it is: offset,
    suppression flag, latch, and the trace of effects (so no exit). *)
Theorem C9_no_drag_start_no_op (i : string) (e : PointerEvent)
    (s : CardState) :
  dragStartRef s = None →
  handlePointerMove i e s = s ∧
  handlePointerUp i e s = s ∧
  handlePointerCancel i e s = s.
Proof.
  intros Hs. unfold handlePointerMove, handlePointerUp, handlePointerCancel.
  by rewrite Hs.
Qed.

(** Events on a card that has seen no pointer-down. *)
Lemma C9_no_drag_start_no_op_witness :
  handlePointerMove "n1" (at_ 500 500) initial = initial ∧
  handlePointerUp "n1" (at_ 500 500) initial = initial ∧
  handlePointerCancel "n1" (at_ 500 500) initial = initial.
Proof. apply (C9_no_drag_start_no_op "n1" (at_ 500 500) initial). reflexivity. Defined.

(** ** The drag-out latch *)

Lemma handlePointerMove_latched i e s :
  isDraggingOutRef s = true →
  isDraggingOutRef (handlePointerMove i e s) = true ∧
  exits (handlePointerMove i e s) = exits s.
Proof.
  intros Hl. unfold handlePointerMove.
  destruct (dragStartRef s) as [start|]; [|done]. cbn zeta.
  destruct (hypot_gt _ _ 4); cbn [isDraggingOutRef set_clickSuppressed updateDragOffset];
    rewrite Hl, andb_false_r; done.
Qed.

Lemma step_latched i h s ev :
  isDraggingOutRef s = true → releases s ev = false →
  isDraggingOutRef (step i h s ev) = true ∧ exits (step i h s ev) = exits s.
Proof.
  intros Hl Hr. destruct ev as [e|e|e|e|]; cbn [step].
  - split; [done|]. unfold handlePointerDown. by rewrite exits_emit_capture.
  - by apply handlePointerMove_latched.
  - unfold handlePointerUp. cbn in Hr. by destruct (dragStartRef s).
  - unfold handlePointerCancel. cbn in Hr. by destruct (dragStartRef s).
  - split; [|apply exits_handleClick].
    unfold handleClick. by destruct h, (clickSuppressedRef s).
Qed.

Lemma handlePointerMove_exit_sets_latch i e s :
  exits (handlePointerMove i e s) ≠ exits s →
  isDraggingOutRef s = false ∧
  isDraggingOutRef (handlePointerMove i e s) = true ∧
  dragStartRef (handlePointerMove i e s) = None.
Proof.
  unfold handlePointerMove.
  destruct (dragStartRef s) as [start|]; [|done]. cbn zeta.
  destruct (isDraggingOutRef s) eqn:Hl.
  - destruct (hypot_gt _ _ 4);
      cbn [isDraggingOutRef set_clickSuppressed updateDragOffset];
      rewrite Hl, andb_false_r; done.
  - destruct (hypot_gt _ _ 4);
      cbn [isDraggingOutRef set_clickSuppressed updateDragOffset];
      rewrite Hl, andb_true_r; destruct (hypot_gt _ _ DRAG_CLOSE_DISTANCE);
      done.
Qed.

(** C10.  A pointer-move that triggers exit sets the latch (and only
    fires with the latch unset).  A pointer-down keeps the latch as it
    is.  From a state with the latch set, a run of events none of which
    is a pointer-up or pointer-cancel finding a drag start recorded keeps
    the latch set and triggers no exit, whatever the moves; such a
    pointer-up or pointer-cancel clears the latch. *)
Theorem C10_latch_survives_pointer_down (i : string) (hasOnClick : bool) :
  (∀ e s, exits (handlePointerMove i e s) ≠ exits s →
     isDraggingOutRef s = false ∧
     isDraggingOutRef (handlePointerMove i e s) = true) ∧
  (∀ e s, isDraggingOutRef (handlePointerDown e s) = isDraggingOutRef s) ∧
  (∀ evs s, isDraggingOutRef s = true →
     no_release i hasOnClick s evs = true →
     isDraggingOutRef (run i hasOnClick s evs) = true ∧
     exits (run i hasOnClick s evs) = exits s) ∧
  (∀ e s, is_Some (dragStartRef s) →
     isDraggingOutRef (handlePointerUp i e s) = false ∧
     isDraggingOutRef (handlePointerCancel i e s) = false).
Proof.
  split; [|split; [done|split]].
  - intros e s H. apply handlePointerMove_exit_sets_latch in H. tauto.
  - induction evs as [|ev evs IH]; intros s Hl Hn; [done|].
    cbn [no_release] in Hn. apply andb_true_iff in Hn as [Hr Hn].
    apply negb_true_iff in Hr.
    destruct (step_latched i hasOnClick s ev Hl Hr) as [Hl' He'].
    unfold run. cbn [fold_left]. fold (run i hasOnClick (step i hasOnClick s ev) evs).
    destruct (IH _ Hl' Hn) as [Hl'' He'']. split; [done|congruence].
  - intros e s [start Hs]. unfold handlePointerUp, handlePointerCancel.
    by rewrite Hs.
Qed.

(** After an auto-close, a new pointer-down and two far moves add no
    exit. *)
Lemma C10_latch_survives_pointer_down_witness :
  exits (run "n1" false
           (run "n1" false initial
              [PointerDown (at_ 0 0); PointerMove (at_ 150 0)])
           [PointerDown (at_ 0 0); PointerMove (at_ 300 0);
            PointerMove (at_ 0 400)]) = ["n1"].
Proof.
  destruct (C10_latch_survives_pointer_down "n1" false) as (_ & _ & Hrun & _).
  destruct (Hrun
    [PointerDown (at_ 0 0); PointerMove (at_ 300 0); PointerMove (at_ 0 400)]
    (run "n1" false initial [PointerDown (at_ 0 0); PointerMove (at_ 150 0)]))
    as [_ He]; [vm_compute; reflexivity|vm_compute; reflexivity|].
  etrans; [exact He|]. vm_compute. reflexivity.
Defined.

(** * Further properties of the manager *)

Local Close Scope Z_scope.

(** ** Slots and the buckets behind them *)

Lemma render_keys_lookup grps keys : ∀ (prev : gmap string nat) k key,
  keys !! k = Some key →
  ∃ p, (render_keys grps prev keys).1 !! k = Some (render_bucket grps p key).1.
Proof.
  induction keys as [|k0 ks IH]; intros prev k key Hk; [done|].
  rewrite render_keys_cons. cbn [fst].
  destruct k as [|k]; cbn in Hk.
  - injection Hk as ->. by exists prev.
  - apply (IH (render_bucket grps prev k0).2 k key Hk).
Qed.

Lemma render_cards_live_indices l : ∀ (prev : gmap string nat) a,
  el_index <$> live_cards (render_cards prev a l).1 = seq a (count_active l).
Proof.
  unfold live_cards.
  induction l as [|n l IH]; intros prev a; [done|].
  cbn [render_cards].
  specialize (IH (<[id n := current_index prev a n]> prev) (next_active a n)).
  destruct (render_cards _ _ l) as [els p']. cbn [fst] in *.
  rewrite filter_cons, count_active_cons. cbn [el_props].
  unfold current_index, next_active in *.
  destruct (isExiting n).
  - rewrite decide_False by done. by rewrite IH.
  - rewrite decide_True by done. cbn. by rewrite IH.
Qed.

(** X1.  In every slot the cards of notifications that are not exiting
    carry the indices 0, 1, 2, ... in list order, whatever the side
    table holds and whether or not ids repeat: exiting cards never
    leave a gap in, or shift, the live stack. *)
Theorem X1_live_indices_consecutive (prev : gmap string nat)
    (notifications : list NotificationProps) (k : nat) (key : string) :
  ORDER !! k = Some key →
  ∃ slot,
    (NotificationManager prev notifications).1 !! k = Some slot ∧
    el_index <$> live_cards (default [] slot) =
      seq 0 (count_active (take 7 (bucket_of key notifications))).
Proof.
  intros Hk. unfold NotificationManager.
  destruct (render_keys_lookup (groups notifications) ORDER prev k key Hk)
    as [p Hp].
  eexists. split; [exact Hp|].
  rewrite render_bucket_unfold, <- groups_lookup_default.
  destruct (groups notifications !! key) as [b|]; [|done].
  cbn [fst default]. apply render_cards_live_indices.
Qed.

Lemma X1_live_indices_consecutive_witness :
  ∃ slot,
    (NotificationManager {["a" := 4; "b" := 9]}
       [sample "a" None false; sample "b" None true;
        sample "c" None false]).1 !! 1 = Some slot ∧
    el_index <$> live_cards (default [] slot) = [0; 1].
Proof.
  apply (X1_live_indices_consecutive {["a" := 4; "b" := 9]}
    [sample "a" None false; sample "b" None true; sample "c" None false]
    1 "top-middle").
  reflexivity.
Defined.

(** X2.  An exiting card keeps its place from one commit to the next.
    If a notification was rendered in one commit, and in the next
    render an entry with the same id is exiting and rendered, then that
    entry gets the index the notification had in the earlier render, in
    whichever bucket and position it now is.  Ids are distinct in both
    lists. *)
Theorem X2_exiting_card_keeps_index (prev : gmap string nat)
    (before after : list NotificationProps)
    (k : nat) (key : string) (j : nat) (n : NotificationProps)
    (k' : nat) (key' : string) (j' : nat) (n' : NotificationProps) :
  NoDup (id <$> before) → NoDup (id <$> after) →
  ORDER !! k = Some key →
  take 7 (bucket_of key before) !! j = Some n →
  ORDER !! k' = Some key' →
  take 7 (bucket_of key' after) !! j' = Some n' →
  id n' = id n → isExiting n' = true →
  ∃ els e els' e',
    (render_commit prev before).1 !! k = Some (Some els) ∧
    els !! j = Some e ∧ el_props e = n ∧
    (NotificationManager (render_commit prev before).2 after).1 !! k'
      = Some (Some els') ∧
    els' !! j' = Some e' ∧ el_props e' = n' ∧
    el_index e' = el_index e.
Proof.
  intros Hnd Hnd' Hk Hj Hk' Hj' Hid Hex.
  unfold render_commit, NotificationManager.
  destruct (render_keys (groups before) prev ORDER) as [out table] eqn:Hr.
  cbn [fst snd].
  rewrite <- groups_lookup_default in Hj, Hj'.
  destruct (render_keys_entry (groups before) ORDER prev k key j n)
    as (slot & e & Hs & He & Hp & _ & Ht); [|done|done|].
  { apply retained_NoDup; [apply NoDup_ORDER|done]. }
  rewrite Hr in Hs, Ht. cbn [fst snd] in Hs, Ht.
  destruct slot as [els|]; [|done]. cbn [default] in He.
  destruct (render_keys_entry (groups after) ORDER (cleanup before table)
              k' key' j' n')
    as (slot' & e' & Hs' & He' & Hp' & Hi' & _); [|done|done|].
  { apply retained_NoDup; [apply NoDup_ORDER|done]. }
  destruct slot' as [els'|]; [|done]. cbn [default] in He'.
  exists els, e, els', e'. repeat split; try done.
  rewrite Hi'. unfold current_index. rewrite Hex, Hid, cleanup_lookup.
  rewrite decide_True; [by rewrite Ht|].
  apply list_elem_of_fmap. exists n. split; [done|].
  assert (n ∈ take 7 (default [] (groups before !! key))) as Hin
    by by eapply list_elem_of_lookup_2.
  rewrite groups_lookup_default in Hin.
  by destruct (elem_of_take_bucket _ _ _ _ Hin).
Qed.

(** Three stacked cards; the middle one starts exiting and the first is
    removed: the exiting card stays at index 1 while the last moves up. *)
Lemma X2_exiting_card_keeps_index_witness :
  ∃ els',
    (NotificationManager
       (render_commit ∅
          [sample "a" None false; sample "b" None false;
           sample "c" None false]).2
       [sample "b" None true; sample "c" None false]).1 !! 1
      = Some (Some els') ∧
    el_index <$> els' = [1; 0].
Proof.
  destruct (X2_exiting_card_keeps_index ∅
      [sample "a" None false; sample "b" None false; sample "c" None false]
      [sample "b" None true; sample "c" None false]
      1 "top-middle" 1 (sample "b" None false)
      1 "top-middle" 0 (sample "b" None true))
    as (els & e & els' & e' & _ & _ & _ & Hs' & _).
  - apply (bool_decide_unpack _). vm_compute. exact I.
  - apply (bool_decide_unpack _). vm_compute. exact I.
  - reflexivity.
  - reflexivity.
  - reflexivity.
  - reflexivity.
  - reflexivity.
  - reflexivity.
  - exists els'. split; [exact Hs'|].
    vm_compute in Hs'. injection Hs' as <-. reflexivity.
Defined.

(** ** The cards of a render *)

Lemma render_cards_elem l : ∀ (prev : gmap string nat) a e,
  e ∈ (render_cards prev a l).1 →
  el_key e = id (el_props e) ∧ el_onClose e = id (el_props e) ∧
  el_colored e = default Cfull (colored (el_props e)).
Proof.
  induction l as [|n l IH]; intros prev a e; cbn [render_cards].
  - cbn. by intros ?%elem_of_nil.
  - specialize (IH (<[id n := current_index prev a n]> prev) (next_active a n)).
    destruct (render_cards _ _ l) as [els p']. cbn [fst] in *.
    intros [->|?]%elem_of_cons; [done|]. by apply IH.
Qed.

Lemma render_keys_elem grps keys : ∀ (prev : gmap string nat) e,
  e ∈ rendered (render_keys grps prev keys).1 →
  el_key e = id (el_props e) ∧ el_onClose e = id (el_props e) ∧
  el_colored e = default Cfull (colored (el_props e)).
Proof.
  unfold rendered.
  induction keys as [|k ks IH]; intros prev e.
  - cbn. by intros ?%elem_of_nil.
  - rewrite render_keys_cons. cbn [fst]. rewrite fmap_cons, join_cons.
    intros [He|He]%elem_of_app; [|by eapply IH].
    rewrite render_bucket_unfold in He.
    destruct (grps !! k) as [b|]; cbn in He.
    + by eapply render_cards_elem.
    + by apply elem_of_nil in He.
Qed.

(** X3.  Every card of a render belongs to a live notification, is
    keyed by that notification's id, has its close callback bound to
    that same id, and is coloured ["full"] unless the notification says
    otherwise; and when the live list does not repeat an id, no two
    cards of the render share a key. *)
Theorem X3_cards_keyed_by_id (prev : gmap string nat)
    (notifications : list NotificationProps) :
  (∀ e, e ∈ rendered (NotificationManager prev notifications).1 →
     el_props e ∈ notifications ∧
     el_key e = id (el_props e) ∧ el_onClose e = id (el_props e) ∧
     el_colored e = default Cfull (colored (el_props e))) ∧
  (NoDup (id <$> notifications) →
   NoDup (el_key <$> rendered (NotificationManager prev notifications).1)).
Proof.
  unfold NotificationManager. split.
  - intros e He. split; [|by eapply render_keys_elem].
    assert (el_props e ∈
            el_props <$> rendered (render_keys (groups notifications) prev ORDER).1)
      as Hin by (apply list_elem_of_fmap; eauto).
    rewrite render_keys_rendered_props in Hin.
    by destruct (elem_of_retained_groups _ _ _ Hin).
  - intros Hnd. rewrite render_keys_rendered_keys.
    apply retained_NoDup; [apply NoDup_ORDER|done].
Qed.

Lemma X3_cards_keyed_by_id_witness :
  NoDup (el_key <$> rendered (NotificationManager ∅ eight).1).
Proof.
  destruct (X3_cards_keyed_by_id ∅ eight) as [_ H].
  apply H. apply (bool_decide_unpack _). vm_compute. exact I.
Defined.

Lemma join_fmap_submseteq {A B} (f g : A → list B) (ks : list A) :
  (∀ k, k ∈ ks → f k ⊆+ g k) → mjoin (f <$> ks) ⊆+ mjoin (g <$> ks).
Proof.
  induction ks as [|k ks IH]; intros H; [done|].
  rewrite !fmap_cons, !join_cons. apply submseteq_app.
  - apply H. by left.
  - apply IH. intros k' Hk'. apply H. by right.
Qed.

Lemma join_fmap_ext_in {A B} (f g : A → list B) (ks : list A) :
  (∀ k, k ∈ ks → f k = g k) → mjoin (f <$> ks) = mjoin (g <$> ks).
Proof.
  induction ks as [|k ks IH]; intros H; [done|].
  rewrite !fmap_cons, !join_cons. f_equal.
  - apply H. by left.
  - apply IH. intros k' Hk'. apply H. by right.
Qed.

Lemma retained_length grps keys :
  (length (retained grps keys) ≤ 7 * length keys)%nat.
Proof.
  unfold retained. induction keys as [|k ks IH]; [done|].
  rewrite fmap_cons, join_cons, length_app, length_take. cbn [length]. lia.
Qed.

(** X4.  When no bucket holds more than seven entries, a render shows
    every live notification exactly once. *)
Theorem X4_all_rendered_without_overflow (prev : gmap string nat)
    (notifications : list NotificationProps) :
  (∀ key, key ∈ ORDER → (length (bucket_of key notifications) ≤ 7)%nat) →
  el_props <$> rendered (NotificationManager prev notifications).1
    ≡ₚ notifications.
Proof.
  intros Hfit. unfold NotificationManager.
  rewrite render_keys_rendered_props, retained_groups.
  rewrite (join_fmap_ext_in _ (λ k, bucket_of k notifications)).
  - rewrite buckets_permutation by apply NoDup_ORDER.
    by rewrite filter_in_ORDER.
  - intros k Hk. apply take_ge. by apply Hfit.
Qed.

Lemma X4_all_rendered_without_overflow_witness :
  el_props <$> rendered (NotificationManager ∅
    [sample "a" (Some (Some Vbottom, Some Hleft)) false;
     sample "b" None false;
     sample "c" (Some (Some Vtop, Some Hleft)) true]).1
  ≡ₚ [sample "a" (Some (Some Vbottom, Some Hleft)) false;
      sample "b" None false;
      sample "c" (Some (Some Vtop, Some Hleft)) true].
Proof.
  apply X4_all_rendered_without_overflow.
  intros key Hkey. unfold ORDER in Hkey.
  repeat (apply elem_of_cons in Hkey as [->|Hkey]; [vm_compute; lia|]).
  by apply elem_of_nil in Hkey.
Defined.

(** X5.  Whatever the live list, the cards of a render are live
    notifications counted at most as often as the list has them, there
    are at most 42 of them, and the slot of a key is [null] exactly
    when no live notification has that key. *)
Theorem X5_cards_within_live_list (prev : gmap string nat)
    (notifications : list NotificationProps) :
  el_props <$> rendered (NotificationManager prev notifications).1
    ⊆+ notifications ∧
  (length (rendered (NotificationManager prev notifications).1) ≤ 42)%nat ∧
  ∀ k key, ORDER !! k = Some key →
    ((NotificationManager prev notifications).1 !! k = Some None ↔
     ∀ n, n ∈ notifications → align_key n ≠ key).
Proof.
  unfold NotificationManager. split; [|split].
  - rewrite render_keys_rendered_props, retained_groups.
    etrans; [apply (join_fmap_submseteq _ (λ k, bucket_of k notifications))|].
    + intros k _. apply sublist_submseteq, sublist_take.
    + rewrite buckets_permutation by apply NoDup_ORDER.
      by rewrite filter_in_ORDER.
  - rewrite <- (length_fmap el_props), render_keys_rendered_props.
    etrans; [apply retained_length|]. done.
  - intros k key Hk.
    destruct (render_keys_lookup (groups notifications) ORDER prev k key Hk)
      as [p ->].
    rewrite render_bucket_unfold, groups_lookup.
    destruct (bucket_of key notifications) as [|n0 b] eqn:Hb; cbn [fst].
    + split; [|done]. intros _ n Hn Hkey.
      assert (n ∈ bucket_of key notifications) as Hin
        by (by apply list_elem_of_filter).
      rewrite Hb in Hin. by apply elem_of_nil in Hin.
    + split; [done|]. intros Hnone. exfalso.
      assert (n0 ∈ bucket_of key notifications) as Hin
        by (rewrite Hb; by left).
      apply list_elem_of_filter in Hin as [Hkey Hin].
      by apply (Hnone n0).
Qed.

Lemma X5_cards_within_live_list_witness :
  (NotificationManager ∅ eight).1 !! 0 = Some None.
Proof.
  destruct (X5_cards_within_live_list ∅ eight) as (_ & _ & H).
  apply (H 0 "top-left"); [reflexivity|].
  intros n Hn. unfold eight in Hn.
  apply list_elem_of_fmap in Hn as (i & -> & _). vm_compute. discriminate.
Defined.

(** ** The side table *)

Lemma render_cards_dom l : ∀ (prev : gmap string nat) a,
  dom (render_cards prev a l).2 = dom prev ∪ list_to_set (id <$> l).
Proof.
  induction l as [|n l IH]; intros prev a.
  - cbn. by rewrite union_empty_r_L.
  - cbn [render_cards].
    specialize (IH (<[id n := current_index prev a n]> prev) (next_active a n)).
    destruct (render_cards _ _ l) as [els p']. cbn [snd] in *.
    rewrite IH, dom_insert_L, fmap_cons, list_to_set_cons.
    apply set_eq. intros i. rewrite !elem_of_union. tauto.
Qed.

Lemma render_keys_dom grps keys : ∀ (prev : gmap string nat),
  dom (render_keys grps prev keys).2 =
    dom prev ∪ list_to_set (id <$> retained grps keys).
Proof.
  unfold retained. induction keys as [|k ks IH]; intros prev.
  - cbn. by rewrite union_empty_r_L.
  - rewrite render_keys_cons. cbn [snd].
    rewrite IH, fmap_cons, join_cons, fmap_app, list_to_set_app_L.
    rewrite render_bucket_unfold.
    destruct (grps !! k) as [b|]; cbn [snd default].
    + rewrite render_cards_dom.
      apply set_eq. intros i. rewrite !elem_of_union. tauto.
    + cbn. rewrite union_empty_l_L.
      apply set_eq. intros i. rewrite !elem_of_union. tauto.
Qed.

(** X6.  A render writes the side table only under the ids of the cards
    it renders: the record of any other id is as before, and the ids
    with a record afterwards are those that had one plus the rendered
    ones. *)
Theorem X6_render_writes_rendered_ids (prev : gmap string nat)
    (notifications : list NotificationProps) :
  (∀ i, i ∉ el_key <$> rendered (NotificationManager prev notifications).1 →
     (NotificationManager prev notifications).2 !! i = prev !! i) ∧
  dom (NotificationManager prev notifications).2 =
    dom prev ∪
    list_to_set (el_key <$> rendered (NotificationManager prev notifications).1).
Proof.
  unfold NotificationManager. rewrite render_keys_rendered_keys. split.
  - intros i Hi. by apply render_keys_table_other.
  - apply render_keys_dom.
Qed.

Lemma X6_render_writes_rendered_ids_witness :
  (NotificationManager {["n8" := 3; "gone" := 2]} eight).2 !! "n8" = Some 3 ∧
  (NotificationManager {["n8" := 3; "gone" := 2]} eight).2 !! "gone" = Some 2.
Proof.
  destruct (X6_render_writes_rendered_ids {["n8" := 3; "gone" := 2]} eight)
    as [H _].
  split.
  - rewrite H; [reflexivity|].
    apply (bool_decide_unpack _). vm_compute. exact I.
  - rewrite H; [reflexivity|].
    apply (bool_decide_unpack _). vm_compute. exact I.
Defined.



Lemma rendered_position (out : list (option (list Element))) e :
  e ∈ rendered out →
  ∃ k slot j, out !! k = Some slot ∧ default [] slot !! j = Some e.
Proof.
  unfold rendered. intros (els & He & Hels)%list_elem_of_join.
  apply list_elem_of_fmap in Hels as (slot & -> & Hslot).
  apply list_elem_of_lookup in Hslot as [k Hk].
  apply list_elem_of_lookup in He as [j Hj]. eauto.
Qed.

(** X8.  After a commit (render, then effect) the side table holds
    records of live ids only, whatever it held before; and, ids being
    distinct, it holds for every card on screen the index that card was
    rendered with. *)
Theorem X8_commit_records_cards_on_screen (prev : gmap string nat)
    (notifications : list NotificationProps) :
  (∀ i, is_Some ((render_commit prev notifications).2 !! i) →
     i ∈ id <$> notifications) ∧
  (NoDup (id <$> notifications) →
   ∀ e, e ∈ rendered (render_commit prev notifications).1 →
     (render_commit prev notifications).2 !! el_key e = Some (el_index e)).
Proof.
  unfold render_commit, NotificationManager.
  destruct (render_keys (groups notifications) prev ORDER) as [out table] eqn:Hr.
  cbn [fst snd]. split.
  - intros i. rewrite cleanup_lookup. case_decide; [done|]. by intros [? ?].
  - intros Hnd e He.
    assert (out = (render_keys (groups notifications) prev ORDER).1) as Hout
      by by rewrite Hr.
    assert (table = (render_keys (groups notifications) prev ORDER).2) as Htab
      by by rewrite Hr.
    destruct (render_keys_elem (groups notifications) ORDER prev e) as [Hkey _].
    { by rewrite <- Hout. }
    destruct (rendered_position out e He) as (k & slot & j & Hk & Hj).
    pose proof (render_keys_props (groups notifications) ORDER prev) as Hp.
    rewrite <- Hout in Hp.
    apply (f_equal (λ l, l !! k)) in Hp.
    rewrite !list_lookup_fmap, Hk in Hp.
    destruct (ORDER !! k) as [key|] eqn:Hkk; [|done].
    injection Hp as Hp.
    assert (take 7 (default [] (groups notifications !! key)) !! j
            = Some (el_props e)) as Hn.
    { destruct slot as [els|], (groups notifications !! key) as [b|];
        cbn in *; try done.
      injection Hp as <-. by rewrite list_lookup_fmap, Hj. }
    destruct (render_keys_entry (groups notifications) ORDER prev k key j
                (el_props e))
      as (slot' & e' & Hs' & He' & _ & _ & Ht'); [|done|done|].
    { apply retained_NoDup; [apply NoDup_ORDER|done]. }
    rewrite <- Hout, Hk in Hs'. injection Hs' as <-.
    rewrite Hj in He'. injection He' as <-.
    rewrite cleanup_lookup, Hkey, Htab, Ht'.
    rewrite decide_True; [done|].
    apply list_elem_of_fmap. exists (el_props e). split; [done|].
    assert (el_props e ∈ take 7 (default [] (groups notifications !! key)))
      as Hin by by eapply list_elem_of_lookup_2.
    rewrite groups_lookup_default in Hin.
    by destruct (elem_of_take_bucket _ _ _ _ Hin).
Qed.

Lemma X8_commit_records_cards_on_screen_witness :
  (render_commit {["gone" := 4]} eight).2 !! "n3" = Some 2.
Proof.
  destruct (X8_commit_records_cards_on_screen {["gone" := 4]} eight) as [_ H].
  apply (H ltac:(apply (bool_decide_unpack _); vm_compute; exact I)
           {| el_key := "n3"; el_props := sample "n3" None false;
              el_colored := Cfull; el_index := 2; el_onClose := "n3" |}).
  vm_compute. do 2 apply list_elem_of_further. apply list_elem_of_here.
Defined.

(** * Further properties of the card *)

Import View.

Local Open Scope Z_scope.

(** ** Colours, role and icon *)

(** X9.  Colored mode ["border"] is a mix of the other two: its border
    and font colours are those of mode ["full"], its background that of
    mode ["none"]; and for a notification of type ["none"] without a
    theme of its own the three modes give the same colours. *)
Theorem X9_border_mode_mixes_full_and_none
    (type : NotificationType) (userTheme : option NotificationThemeType)
    (lightTheme darkTheme : NotificationType → NotificationThemeType)
    (mode : ThemeMode) :
  let c := λ colored,
    computeColors colored type userTheme lightTheme darkTheme mode in
  border (c Cborder) = border (c Cfull) ∧
  color (c Cborder) = color (c Cfull) ∧
  bg (c Cborder) = bg (c Cnone) ∧
  (type = Tnone → userTheme = None → c Cfull = c Cnone ∧ c Cborder = c Cnone).
Proof.
  cbn. repeat split; try done; by subst.
Qed.

Lemma X9_border_mode_mixes_full_and_none_witness :
  computeColors Cfull Tnone None
    (λ _, {| backgroundColor := "#fff"; borderColor := "#ccc";
             fontColor := "#000" |})
    (λ _, {| backgroundColor := "#000"; borderColor := "#333";
             fontColor := "#fff" |}) dark
  = computeColors Cnone Tnone None
    (λ _, {| backgroundColor := "#fff"; borderColor := "#ccc";
             fontColor := "#000" |})
    (λ _, {| backgroundColor := "#000"; borderColor := "#333";
             fontColor := "#fff" |}) dark.
Proof.
  apply (X9_border_mode_mixes_full_and_none Tnone None
    (λ _, {| backgroundColor := "#fff"; borderColor := "#ccc";
             fontColor := "#000" |})
    (λ _, {| backgroundColor := "#000"; borderColor := "#333";
             fontColor := "#fff" |}) dark); reflexivity.
Defined.

(** X10.  In mode ["full"] a notification with a theme of its own is
    coloured by that theme alone: neither its type, nor the theme mode,
    nor the palettes matter; in mode ["border"] the same holds for the
    border and font colours.  Without a theme of its own, the colours
    of mode ["full"] are the palette entry of its type for the current
    mode. *)
Theorem X10_own_theme_overrides_palette (t : NotificationThemeType)
    (type : NotificationType)
    (lightTheme darkTheme : NotificationType → NotificationThemeType)
    (mode : ThemeMode) :
  (∀ type' lightTheme' darkTheme' mode',
     computeColors Cfull type (Some t) lightTheme darkTheme mode =
     computeColors Cfull type' (Some t) lightTheme' darkTheme' mode') ∧
  computeColors Cfull type (Some t) lightTheme darkTheme mode =
    {| bg := backgroundColor t; border := borderColor t;
       color := fontColor t |} ∧
  border (computeColors Cborder type (Some t) lightTheme darkTheme mode) =
    borderColor t ∧
  color (computeColors Cborder type (Some t) lightTheme darkTheme mode) =
    fontColor t ∧
  computeColors Cfull type None lightTheme darkTheme light =
    {| bg := backgroundColor (lightTheme type);
       border := borderColor (lightTheme type);
       color := fontColor (lightTheme type) |} ∧
  computeColors Cfull type None lightTheme darkTheme dark =
    {| bg := backgroundColor (darkTheme type);
       border := borderColor (darkTheme type);
       color := fontColor (darkTheme type) |}.
Proof. done. Qed.

(** X11.  The role and the live-region politeness of a card always go
    together: ["alert"] with ["assertive"] for the types alert and
    error, ["status"] with ["polite"] for every other type. *)
Theorem X11_role_matches_aria_live (type : NotificationType) :
  (role type = "alert" ∧ ariaLive type = "assertive" ∧
   (type = Talert ∨ type = Terror)) ∨
  (role type = "status" ∧ ariaLive type = "polite" ∧
   type ≠ Talert ∧ type ≠ Terror).
Proof. destruct type; cbn; intuition congruence. Qed.

(** X12.  Whatever the icon components are: a custom icon is shown
    whenever there is one, whatever [hasIcon] and the type; without
    one, a built-in icon is shown exactly when [hasIcon] holds and the
    type is not ["none"], and the icon shown is then the entry of
    [iconMap] for the type. *)
Theorem X12_icon_shown {C Icon : Type}
    (SuccessIcon ErrorIcon InfoIcon AlertIcon : Icon)
    (hasIcon : bool) (type : NotificationType) :
  let slot := @icon_slot Icon SuccessIcon ErrorIcon InfoIcon AlertIcon C in
  let map := iconMap Icon SuccessIcon ErrorIcon InfoIcon AlertIcon in
  (∀ c : C, slot (Some c) hasIcon type = Some (CustomIconSlot c)) ∧
  (is_Some (slot None hasIcon type) ↔ hasIcon = true ∧ type ≠ Tnone) ∧
  (∀ ic, slot None hasIcon type = Some (BuiltinIconSlot ic) ↔
         hasIcon = true ∧ map type = Some ic).
Proof.
  cbn zeta. split; [done|]. split.
  - destruct hasIcon, type; cbn; split;
      try (intros [? ?]; done); try (intros [? ?]; by eexists); try done.
  - intros ic. unfold icon_slot.
    destruct hasIcon; [|split; [done|by intros [? _]]].
    destruct (iconMap _ _ _ _ _ type) as [ic'|]; cbn.
    + split; [by intros [= ->]|by intros [_ [= ->]]].
    + split; [done|by intros [_ ?]].
Qed.

Lemma X12_icon_shown_witness :
  is_Some (@icon_slot string "success" "error" "info" "alert" string
             None true Talert) ∧
  ¬ is_Some (@icon_slot string "success" "error" "info" "alert" string
               None true Tnone).
Proof.
  split.
  - apply (X12_icon_shown (C := string) "success" "error" "info" "alert"
             true Talert). by split.
  - intros H.
    apply (X12_icon_shown (C := string) "success" "error" "info" "alert"
             true Tnone) in H.
    by destruct H.
Defined.

(** ** The anchor of a card and the bucket it is stacked in *)

Lemma anchor_name_inj v h v' h' :
  vertical_name v +:+ "-" +:+ horizontal_name h =
  vertical_name v' +:+ "-" +:+ horizontal_name h' →
  v = v' ∧ h = h'.
Proof. destruct v, h, v', h'; cbn; intros H; by try discriminate H. Qed.

(** X13.  For a notification without an anchor, or with both components
    of its anchor given, the anchor the card positions itself at is the
    one that names the bucket the manager stacks it in; so two such
    notifications share a bucket exactly when their cards share an
    anchor. *)
Theorem X13_card_anchor_is_bucket_anchor (n m : NotificationProps) :
  (align n = None ∨ ∃ v h, align n = Some (Some v, Some h)) →
  (align m = None ∨ ∃ v h, align m = Some (Some v, Some h)) →
  (∃ v h, card_anchor n = (Some v, Some h) ∧
          align_key n = vertical_name v +:+ "-" +:+ horizontal_name h) ∧
  (align_key n = align_key m ↔ card_anchor n = card_anchor m).
Proof.
  intros Hn Hm.
  assert (∀ a, (align a = None ∨ ∃ v h, align a = Some (Some v, Some h)) →
            ∃ v h, card_anchor a = (Some v, Some h) ∧
              align_key a = vertical_name v +:+ "-" +:+ horizontal_name h)
    as Hfull.
  { intros a [Ha|(v & h & Ha)]; unfold card_anchor, align_key; rewrite Ha.
    - by exists Vtop, Hmiddle.
    - by exists v, h. }
  destruct (Hfull n Hn) as (v & h & Hc & Hk).
  destruct (Hfull m Hm) as (v' & h' & Hc' & Hk').
  split; [by exists v, h|].
  rewrite Hc, Hc', Hk, Hk'. split.
  - intros [-> ->]%anchor_name_inj. done.
  - intros [= -> ->]. done.
Qed.

Lemma X13_card_anchor_is_bucket_anchor_witness :
  align_key (sample "a" None false) =
  align_key (sample "b" (Some (Some Vtop, Some Hmiddle)) true).
Proof.
  destruct (X13_card_anchor_is_bucket_anchor
              (sample "a" None false)
              (sample "b" (Some (Some Vtop, Some Hmiddle)) true))
    as [_ H].
  - by left.
  - right. by exists Vtop, Hmiddle.
  - apply H. reflexivity.
Defined.

(** ** The drag gesture *)

Lemma exits_updateDragOffset p s : exits (updateDragOffset p s) = exits s.
Proof. done. Qed.

Lemma handlePointerMove_cases i e s start :
  dragStartRef s = Some start →
  let dx := clientX e - x start in
  let dy := clientY e - y start in
  let tracked :=
    updateDragOffset {| x := dx; y := dy |} s in
  let s2 := if hypot_gt dx dy 4 then set_clickSuppressed true tracked
            else tracked in
  handlePointerMove i e s =
    if hypot_gt dx dy DRAG_CLOSE_DISTANCE && negb (isDraggingOutRef s)
    then set_dragStart None
           (emit (ReleasePointerCapture (pointerId e))
              (finalizeDrag i true (set_isDraggingOut true s2)))
    else s2.
Proof.
  intros Hs. cbn zeta. unfold handlePointerMove. rewrite Hs. cbn zeta.
  by destruct (hypot_gt _ _ 4).
Qed.

(** X14.  A pointer-move that finds a drag start recorded makes the
    offset follow the pointer.  When the pointer is more than 100 px
    from the start and the latch is unset, the card exits at once: the
    offset is the pointer's displacement with the release push, exit is
    triggered once with the card's id, the latch is set and the drag
    start is cleared, so that every later move, pointer-up or
    pointer-cancel of the gesture changes nothing.  Otherwise the offset
    is the displacement itself, nothing exits, and the drag start and
    the latch stay as they were. *)
Theorem X14_move_tracks_or_auto_closes (i : string) (e : PointerEvent)
    (s : CardState) (start : Point) :
  dragStartRef s = Some start →
  let dx := clientX e - x start in
  let dy := clientY e - y start in
  let s' := handlePointerMove i e s in
  dragOffset s' = dragOffsetRef s' ∧
  (100 * 100 < dx * dx + dy * dy → isDraggingOutRef s = false →
     dragOffset s' = {| x := pushed dx; y := pushed dy |} ∧
     exits s' = exits s ++ [i] ∧
     isDraggingOutRef s' = true ∧ dragStartRef s' = None ∧
     ∀ e', handlePointerMove i e' s' = s' ∧ handlePointerUp i e' s' = s' ∧
           handlePointerCancel i e' s' = s') ∧
  (dx * dx + dy * dy ≤ 100 * 100 ∨ isDraggingOutRef s = true →
     dragOffset s' = {| x := dx; y := dy |} ∧
     exits s' = exits s ∧
     isDraggingOutRef s' = isDraggingOutRef s ∧
     dragStartRef s' = Some start).
Proof.
  intros Hs. cbn zeta. rewrite (handlePointerMove_cases i e s start Hs).
  cbn zeta. split; [|split].
  - destruct (_ && _); [done|]. by destruct (hypot_gt _ _ 4).
  - intros Hfar%(hypot_gt_true _ _ 100) Hl.
    unfold DRAG_CLOSE_DISTANCE. rewrite Hfar, Hl. cbn [andb negb].
    split; [by destruct (hypot_gt _ _ 4)|]. split.
    { cbn [set_dragStart]. unfold exits at 1. cbn [trace].
      change (exits (emit (ReleasePointerCapture (pointerId e))
                (finalizeDrag i true (set_isDraggingOut true
                   (if hypot_gt (clientX e - x start) (clientY e - y start) 4
                    then set_clickSuppressed true
                           (updateDragOffset
                              {| x := clientX e - x start;
                                 y := clientY e - y start |} s)
                    else updateDragOffset
                           {| x := clientX e - x start;
                              y := clientY e - y start |} s))))
              = exits s ++ [i]).
      rewrite exits_emit_release, exits_finalizeDrag.
      by destruct (hypot_gt _ _ 4). }
    split; [done|]. split; [done|]. done.
  - intros Hstay.
    assert (hypot_gt (clientX e - x start) (clientY e - y start)
              DRAG_CLOSE_DISTANCE && negb (isDraggingOutRef s) = false) as ->.
    { destruct Hstay as [Hnear%(hypot_gt_false _ _ 100)|Hl].
      - unfold DRAG_CLOSE_DISTANCE. by rewrite Hnear.
      - rewrite Hl. apply andb_false_r. }
    by destruct (hypot_gt _ _ 4).
Qed.

Lemma X14_move_tracks_or_auto_closes_witness :
  dragOffset
    (run "n1" false initial [PointerDown (at_ 10 10); PointerMove (at_ 10 (-95))])
    = {| x := 0; y := -225 |} ∧
  dragOffset
    (run "n1" false initial [PointerDown (at_ 10 10); PointerMove (at_ 40 (-30))])
    = {| x := 30; y := -40 |}.
Proof.
  split.
  - destruct (X14_move_tracks_or_auto_closes "n1" (at_ 10 (-95))
                (handlePointerDown (at_ 10 10) initial) {| x := 10; y := 10 |})
      as (_ & Hfar & _); [reflexivity|].
    destruct Hfar as [Ho _]; [vm_compute; reflexivity|reflexivity|].
    exact Ho.
  - destruct (X14_move_tracks_or_auto_closes "n1" (at_ 40 (-30))
                (handlePointerDown (at_ 10 10) initial) {| x := 10; y := 10 |})
      as (_ & _ & Hnear); [reflexivity|].
    destruct Hnear as [Ho _]; [left; vm_compute; discriminate|].
    exact Ho.
Defined.

Lemma pushed_cases c :
  (6 < Z.abs c ∧ 0 < c ∧ pushed c = c + 120) ∨
  (6 < Z.abs c ∧ c < 0 ∧ pushed c = c - 120) ∨
  (Z.abs c ≤ 6 ∧ pushed c = c).
Proof.
  unfold pushed, DRAG_RELEASE_PUSH.
  destruct (Z.ltb_spec 6 (Z.abs c)); lia.
Qed.

(** X15.  The release push never pulls a card back: on each axis the
    pushed component has the sign of the component and at least its
    absolute value.  And a card released more than 100 px from where it
    started is flung at least 120 px further: the square of its
    displacement grows by at least 120 * 120. *)
Theorem X15_exit_flings_outwards (i : string) (s : CardState) :
  let off := dragOffsetRef s in
  let off' := dragOffset (finalizeDrag i true s) in
  Z.sgn (x off') = Z.sgn (x off) ∧ Z.abs (x off) ≤ Z.abs (x off') ∧
  Z.sgn (y off') = Z.sgn (y off) ∧ Z.abs (y off) ≤ Z.abs (y off') ∧
  (100 * 100 < displacement2 off →
   displacement2 off + 120 * 120 ≤ displacement2 off').
Proof.
  cbn. unfold displacement2. cbn.
  destruct (dragOffsetRef s) as [a b]. cbn.
  destruct (pushed_cases a) as [(?&?&->)|[(?&?&->)|(?&->)]];
  destruct (pushed_cases b) as [(?&?&->)|[(?&?&->)|(?&->)]];
    repeat split; try lia; intros; nia.
Qed.

Lemma X15_exit_flings_outwards_witness :
  displacement2 {| x := 80; y := -61 |} + 120 * 120 ≤
  displacement2
    (dragOffset
       (finalizeDrag "n1" true
          (updateDragOffset {| x := 80; y := -61 |} initial))).
Proof.
  apply (X15_exit_flings_outwards "n1"
           (updateDragOffset {| x := 80; y := -61 |} initial)).
  vm_compute. reflexivity.
Defined.

(** ** Runs of events *)

Lemma step_exits i h s ev :
  exits (step i h s ev) = exits s ∨ exits (step i h s ev) = exits s ++ [i].
Proof.
  destruct ev as [e|e|e|e|]; cbn [step].
  - left. unfold handlePointerDown. by rewrite exits_emit_capture.
  - unfold handlePointerMove. destruct (dragStartRef s) as [start|]; [|by left].
    cbn zeta. destruct (_ && _).
    + right. cbn [set_dragStart]. unfold exits at 1. cbn [trace].
      match goal with
      | |- context [finalizeDrag i true ?t] =>
          change (exits (emit (ReleasePointerCapture (pointerId e))
                           (finalizeDrag i true t)) = exits s ++ [i])
      end.
      rewrite exits_emit_release, exits_finalizeDrag.
      by destruct (hypot_gt _ _ 4).
    + left. by destruct (hypot_gt _ _ 4).
  - unfold handlePointerUp. destruct (dragStartRef s) as [start|]; [|by left].
    cbn zeta.
    match goal with
    | |- context [finalizeDrag i ?b ?t] =>
        change (exits (finalizeDrag i b t) = exits s ∨
                exits (finalizeDrag i b t) = exits s ++ [i])
    end.
    rewrite exits_finalizeDrag, exits_emit_release.
    destruct (hypot_gt _ _ _); auto.
  - left. unfold handlePointerCancel.
    destruct (dragStartRef s) as [start|]; [|done].
    change (exits (finalizeDrag i false
                     (emit (ReleasePointerCapture (pointerId e)) s)) = exits s).
    by rewrite exits_finalizeDrag, exits_emit_release.
  - left. apply exits_handleClick.
Qed.

Lemma step_offset_in_sync i h s ev :
  dragOffset s = dragOffsetRef s →
  dragOffset (step i h s ev) = dragOffsetRef (step i h s ev).
Proof.
  intros Hs. destruct ev as [e|e|e|e|]; cbn [step].
  - done.
  - unfold handlePointerMove. destruct (dragStartRef s); [|done].
    cbn zeta. destruct (_ && _); [done|]. by destruct (hypot_gt _ _ 4).
  - unfold handlePointerUp. destruct (dragStartRef s); [|done].
    cbn zeta. by destruct (hypot_gt _ _ _).
  - unfold handlePointerCancel. by destruct (dragStartRef s).
  - unfold handleClick. by destruct h, (clickSuppressedRef s).
Qed.

Lemma run_snoc i h s evs ev :
  run i h s (evs ++ [ev]) = step i h (run i h s evs) ev.
Proof. unfold run. by rewrite fold_left_app. Qed.

(** X16.  In every state a card can reach from its mounted state, the
    offset it renders is the offset its handlers keep in the ref, and
    every call of [exitNotification] it has made carries its own id. *)
Theorem X16_reachable_states (i : string) (hasOnClick : bool)
    (evs : list Event) :
  let s := run i hasOnClick initial evs in
  dragOffset s = dragOffsetRef s ∧ Forall (λ j, j = i) (exits s).
Proof.
  cbn zeta. induction evs as [|ev evs IH] using rev_ind.
  - split; [done|]. constructor.
  - rewrite run_snoc. destruct IH as [Ho He]. split.
    + by apply step_offset_in_sync.
    + destruct (step_exits i hasOnClick (run i hasOnClick initial evs) ev)
        as [->| ->]; [done|].
      apply Forall_app. split; [done|]. by repeat constructor.
Qed.

Lemma tracking_step_gesture i h s0 s ev :
  tracking ev = true →
  (exits s = exits s0 ∨ (exits s = exits s0 ++ [i] ∧ dragStartRef s = None)) →
  (exits (step i h s ev) = exits s0 ∨
   (exits (step i h s ev) = exits s0 ++ [i] ∧
    dragStartRef (step i h s ev) = None)).
Proof.
  intros Hev Hs. destruct ev as [e|e|e|e|]; try done; cbn [step].
  - destruct Hs as [Hs|[Hs Hnone]].
    + destruct (decide (exits (handlePointerMove i e s) = exits s)) as [Heq|Hne].
      * left. congruence.
      * right. split.
        -- destruct (step_exits i h s (PointerMove e)) as [H|H]; cbn [step] in H;
             [done|congruence].
        -- by apply handlePointerMove_exit_sets_latch in Hne as (_ & _ & ?).
    + right. unfold handlePointerMove. by rewrite Hnone.
  - assert (dragStartRef (handleClick h s) = dragStartRef s) as Hd.
    { unfold handleClick. by destruct h, (clickSuppressedRef s). }
    rewrite exits_handleClick, Hd. done.
Qed.

(** X17.  One gesture triggers exit at most once.  From any state, a
    pointer-down, then any moves (and clicks), then a pointer-up or a
    pointer-cancel add at most one call of [exitNotification], with the
    card's id. *)
Theorem X17_one_exit_per_gesture (i : string) (hasOnClick : bool)
    (s : CardState) (down : PointerEvent) (moves : list Event)
    (release : Event) :
  forallb tracking moves = true →
  (∃ e, release = PointerUp e ∨ release = PointerCancel e) →
  let s' := run i hasOnClick s (PointerDown down :: moves ++ [release]) in
  exits s' = exits s ∨ exits s' = exits s ++ [i].
Proof.
  intros Hmoves Hrel. cbn zeta.
  change (PointerDown down :: moves ++ [release])
    with ((PointerDown down :: moves) ++ [release]).
  rewrite run_snoc.
  assert (exits (run i hasOnClick s (PointerDown down :: moves)) = exits s ∨
          (exits (run i hasOnClick s (PointerDown down :: moves))
             = exits s ++ [i] ∧
           dragStartRef (run i hasOnClick s (PointerDown down :: moves)) = None))
    as Hinv.
  { induction moves as [|ev moves IH] using rev_ind.
    - left. unfold run. cbn [fold_left step]. unfold handlePointerDown.
      by rewrite exits_emit_capture.
    - rewrite forallb_app in Hmoves. apply andb_true_iff in Hmoves as [Hm Hev].
      cbn in Hev. rewrite andb_true_r in Hev.
      change (PointerDown down :: moves ++ [ev])
        with ((PointerDown down :: moves) ++ [ev]).
      rewrite run_snoc. apply tracking_step_gesture; [done|]. by apply IH. }
  destruct Hinv as [Hinv|[Hinv Hnone]].
  - rewrite <- Hinv. apply step_exits.
  - right. rewrite <- Hinv.
    destruct Hrel as [e [-> | ->]]; cbn [step].
    + unfold handlePointerUp. by rewrite Hnone.
    + unfold handlePointerCancel. by rewrite Hnone.
Qed.

Lemma X17_one_exit_per_gesture_witness :
  exits (run "n1" false initial
           (PointerDown (at_ 0 0) ::
            [PointerMove (at_ 60 0); PointerMove (at_ 150 0);
             PointerMove (at_ 400 0)] ++ [PointerUp (at_ 400 0)])) = ["n1"].
Proof.
  destruct (X17_one_exit_per_gesture "n1" false initial (at_ 0 0)
              [PointerMove (at_ 60 0); PointerMove (at_ 150 0);
               PointerMove (at_ 400 0)] (PointerUp (at_ 400 0)))
    as [H|H]; [reflexivity|by eexists; left| |exact H].
  vm_compute in H. discriminate H.
Defined.

(** ** The close button *)

(** X18.  A click on the close button of a card the manager rendered
    triggers exit for that card's own notification, the id a drag-out of
    the same card exits with; it stops the click from propagating, so
    the notification's click handler does not run, and it leaves the
    drag state of the card alone. *)
Theorem X18_close_button_exits_own_card (prev : gmap string nat)
    (notifications : list NotificationProps) (e : Element) (s : CardState) :
  e ∈ rendered (NotificationManager prev notifications).1 →
  let s' := handleCloseClick (el_onClose e) s in
  trace s' =
    trace s ++ [StopPropagation; ExitNotification (id (el_props e))] ∧
  exits s' = exits (finalizeDrag (id (el_props e)) true s) ∧
  clicks s' = clicks s ∧
  dragOffset s' = dragOffset s ∧ dragOffsetRef s' = dragOffsetRef s ∧
  dragStartRef s' = dragStartRef s ∧
  clickSuppressedRef s' = clickSuppressedRef s ∧
  isDraggingOutRef s' = isDraggingOutRef s.
Proof.
  intros He. cbn zeta.
  destruct (render_keys_elem (groups notifications) ORDER prev e He)
    as (_ & -> & _).
  unfold handleCloseClick. split.
  { cbn. by rewrite <- app_assoc. }
  split.
  { rewrite exits_finalizeDrag, exits_emit_exit.
    unfold exits, emit. cbn. by rewrite omap_app, app_nil_r. }
  split; [|done].
  unfold clicks. cbn. rewrite !filter_app, !length_app. cbn.
  repeat case_decide; try done; cbn; lia.
Qed.

Lemma X18_close_button_exits_own_card_witness :
  exits (handleCloseClick "n2" initial) = ["n2"].
Proof.
  destruct (X18_close_button_exits_own_card ∅ eight
    {| el_key := "n2"; el_props := sample "n2" None false;
       el_colored := Cfull; el_index := 1%nat; el_onClose := "n2" |} initial)
    as (_ & H & _).
  - vm_compute. apply list_elem_of_further, list_elem_of_here.
  - exact H.
Defined.
